(** * Recurring tasks: the reconciliation script of [recurring_tasks.py]

    A shallow embedding of the main script of [recurring_tasks.py] and of
    [get_recurring_tag], and the properties of the lifecycle of one task
    record: normalisation of the loaded YAML document, closing of a finished
    or deleted remote task, rescheduling, spawning of the next task and the
    write of the record through a temporary file.

    The script works on the Python object that [yaml.safe_load] returns, so
    the embedding works on a universe of Python values with the exceptions
    that subscripting, item assignment and method calls raise on them. *)

From stdpp Require Import base gmap strings list.
From Stdlib Require Import ZArith Lia.

Local Set Warnings "-register-all".
Local Open Scope Z_scope.

(** ** Python values *)

(** A [datetime.datetime]: the naive calendar fields as microseconds since
    0001-01-01T00:00:00, and the UTC offset (microseconds) of its [tzinfo],
    [None] for an offset-naive object. *)
Record datetime := mk_datetime { wall : Z; tzinfo : option Z }.

(** The objects a task file can hold after [yaml.safe_load]: null, integers,
    strings, timestamps, sequences and mappings with string keys; and the
    tuple that the script itself stores as the default checklist.  Booleans,
    floats and dates without a time are left out. *)
Inductive value :=
| VNone
| VInt (n : Z)
| VStr (s : string)
| VDatetime (d : datetime)
| VList (l : list value)
| VTuple (l : list value)
| VDict (m : gmap string value).

(** The exceptions the script can meet.  [HTTPError] carries
    [ex.response.status_code]; [RemoteError] stands for every other exception
    of the remote library (connection failures and the like). *)
Inductive exn :=
| KeyError
| TypeError
| AttributeError
| ValueError
| OverflowError
| FileNotFoundError
| FileExistsError
| YAMLError
| HTTPError (status_code : Z)
| RemoteError.

Inductive result (A : Type) :=
| Ok (a : A)
| Raise (e : exn).
Arguments Ok {A} a.
Arguments Raise {A} e.

#[global] Instance result_ret : MRet result := λ A, Ok.
#[global] Instance result_bind : MBind result :=
  λ A B f r, match r with Ok a => f a | Raise e => Raise e end.

Definition is_Ok {A} (r : result A) : bool :=
  match r with Ok _ => true | Raise _ => false end.

Definition is_TypeError (e : exn) : bool :=
  match e with TypeError => true | _ => false end.
Definition is_AttributeError (e : exn) : bool :=
  match e with AttributeError => true | _ => false end.
Definition is_KeyError (e : exn) : bool :=
  match e with KeyError => true | _ => false end.

(** [x is None] and [x is not None]. *)
Definition is_None (v : value) : bool :=
  match v with VNone => true | _ => false end.
Definition is_not_None (v : value) : bool := negb (is_None v).

(** [v[k]] for a string key [k]: only a dict can be subscripted by a string;
    every other object raises [TypeError] (not subscriptable, or indices must
    be integers). *)
Definition subscript (k : string) (v : value) : result value :=
  match v with
  | VDict m => match m !! k with Some x => Ok x | None => Raise KeyError end
  | _ => Raise TypeError
  end.

(** [v[k] = x] for a string key [k]; the result is the object after the
    assignment. *)
Definition store (k : string) (x : value) (v : value) : result value :=
  match v with
  | VDict m => Ok (VDict (<[k := x]> m))
  | _ => Raise TypeError
  end.

(** [d.replace(tzinfo=datetime.timezone.utc)]: the fields are kept, only the
    offset is set. *)
Definition replace_utc (d : datetime) : datetime :=
  {| wall := wall d; tzinfo := Some 0 |}.

(** [v.replace(tzinfo=datetime.timezone.utc)]: [str.replace] takes no keyword
    arguments ([TypeError]); the other objects have no [replace]. *)
Definition replace_tzinfo (v : value) : result value :=
  match v with
  | VDatetime d => Ok (VDatetime (replace_utc d))
  | VStr _ => Raise TypeError
  | _ => Raise AttributeError
  end.

Definition is_str (s : string) (v : value) : bool :=
  match v with VStr s' => bool_decide (s' = s) | _ => false end.

(** [k in v] for a string [k]: key of a dict, substring of a string, element
    of a sequence; the other objects are not iterable. *)
Definition contains (k : string) (v : value) : result bool :=
  match v with
  | VDict m => Ok (bool_decide (is_Some (m !! k)))
  | VStr s => Ok (bool_decide (is_Some (String.index 0 k s)))
  | VList l | VTuple l => Ok (existsb (is_str k) l)
  | _ => Raise TypeError
  end.

(** Truth value of an object, as [if v:] tests it. *)
Definition truthy (v : value) : bool :=
  match v with
  | VNone => false
  | VInt n => negb (n =? 0)
  | VStr s => negb (bool_decide (s = ""))
  | VDatetime _ => true
  | VList l | VTuple l => negb (bool_decide (l = []))
  | VDict m => negb (bool_decide (m = ∅))
  end.

(** ** Dates and times *)

Definition SECONDS_PER_DAY : Z := 60 * 60 * 24.
Definition MICROSECONDS : Z := 1000000.

(** [datetime.max] is the last microsecond of 9999-12-31, day 3652059. *)
Definition MAX_WALL : Z := 3652059 * SECONDS_PER_DAY * MICROSECONDS.

(** [datetime.timedelta(seconds=s)], in microseconds; a timedelta holds at
    most 999999999 days. *)
Definition timedelta (s : Z) : result Z :=
  if (-999999999 <=? s `div` SECONDS_PER_DAY) && (s `div` SECONDS_PER_DAY <=? 999999999)
  then Ok (s * MICROSECONDS)
  else Raise OverflowError.

(** [d + delta]: the fields move, the [tzinfo] stays. *)
Definition datetime_add (d : datetime) (delta : Z) : result datetime :=
  let w := wall d + delta in
  if (0 <=? w) && (w <? MAX_WALL)
  then Ok {| wall := w; tzinfo := tzinfo d |}
  else Raise OverflowError.

(** [v + delta] for a timedelta [delta]. *)
Definition add_timedelta (v : value) (delta : Z) : result value :=
  match v with
  | VDatetime d => d' ← datetime_add d delta; Ok (VDatetime d')
  | _ => Raise TypeError
  end.

(** The instant of an aware datetime, in microseconds. *)
Definition instant (w off : Z) : Z := w - off.

(** [a >= b] on datetimes: aware ones compare as instants, naive ones by
    their fields, and a naive one cannot be compared with an aware one. *)
Definition datetime_ge (a b : datetime) : result bool :=
  match tzinfo a, tzinfo b with
  | Some oa, Some ob => Ok (instant (wall b) ob <=? instant (wall a) oa)
  | None, None => Ok (wall b <=? wall a)
  | _, _ => Raise TypeError
  end.

(** [now >= v] where [now] is a datetime. *)
Definition ge_value (now : datetime) (v : value) : result bool :=
  match v with
  | VDatetime d => datetime_ge now d
  | _ => Raise TypeError
  end.

(** A reading of the clock: [datetime.datetime.now(TZ)] is the aware datetime
    of the instant [clock_instant] in the offset that [TZ] has then. *)
Record clock := mk_clock { clock_instant : Z; clock_offset : Z }.

Definition datetime_now (c : clock) : datetime :=
  {| wall := clock_instant c + clock_offset c; tzinfo := Some (clock_offset c) |}.

(** ** Random draws *)

(** [random.randint(a, b)]: an integer of the closed range [a..b], chosen by
    the entropy [e] of the generator; an empty range is a [ValueError]. *)
Definition randint (a b : Z) (e : Z) : result Z :=
  if a <=? b then Ok (a + e `mod` (b - a + 1)) else Raise ValueError.

(** [v * k] for a positive integer [k]: the product of an integer, the
    repetition of a string or of a sequence. *)
Definition py_mul (v : value) (k : Z) : result value :=
  match v with
  | VInt n => Ok (VInt (n * k))
  | VStr s => Ok (VStr (String.concat "" (replicate (Z.to_nat k) s)))
  | VList l => Ok (VList (mjoin (replicate (Z.to_nat k) l)))
  | VTuple l => Ok (VTuple (mjoin (replicate (Z.to_nat k) l)))
  | _ => Raise TypeError
  end.

(** [randint] on objects: the bounds have to be integers. *)
Definition randint_value (a b : value) (e : Z) : result Z :=
  match a, b with
  | VInt a, VInt b => randint a b e
  | _, _ => Raise TypeError
  end.

(** ** Computations that mutate a state and may raise

    A computation reads and updates a state and either returns or raises.
    The state is kept when an exception is raised: an [except] clause sees
    the assignments made before it.  The state of the body of the loop is the
    object bound to [task_data] ([M]); the state of the whole script is the
    task directory. *)

Definition ST (S A : Type) : Type := S → result A * S.

#[global] Instance ST_ret {S} : MRet (ST S) := λ A a s, (Ok a, s).
#[global] Instance ST_bind {S} : MBind (ST S) :=
  λ A B f m s,
    match m s with
    | (Ok a, s') => f a s'
    | (Raise e, s') => (Raise e, s')
    end.

Abbreviation M := (ST value).

Definition raise {S A} (e : exn) : ST S A := λ s, (Raise e, s).

Definition lift {S A} (r : result A) : ST S A := λ s, (r, s).

Definition pass : M unit := mret tt.

(** [try: body except E: handler] for the exceptions [E] selected by
    [catch]. *)
Definition try_except (body : M unit) (catch : exn → bool) (handler : M unit)
  : M unit :=
  λ td,
    match body td with
    | (Raise e, td') => if catch e then handler td' else (Raise e, td')
    | r => r
    end.

(** [task_data[k]] *)
Definition item (k : string) : M value := λ td, (subscript k td, td).

(** [task_data[k] = x] *)
Definition set_item (k : string) (x : value) : M unit :=
  λ td,
    match store k x td with
    | Ok td' => (Ok tt, td')
    | Raise e => (Raise e, td)
    end.

(** [task_data[k1][k2] = x]: the object [task_data[k1]] is updated in
    place. *)
Definition set_item2 (k1 k2 : string) (x : value) : M unit :=
  obj ← item k1;
  obj' ← lift (store k2 x obj);
  set_item k1 obj'.

(** [task_data.pop(k)] *)
Definition pop (k : string) : M value :=
  λ td,
    match td with
    | VDict m =>
        match m !! k with
        | Some x => (Ok x, VDict (delete k m))
        | None => (Raise KeyError, td)
        end
    | VList _ => (Raise TypeError, td)
    | _ => (Raise AttributeError, td)
    end.

(** ** The back-compatibility repairs (lines 75-121) *)

(** Lines 75-79. *)
Definition fix_current : M unit :=
  try_except
    (cur ← item "current";
     created ← lift (subscript "created" cur);
     created' ← lift (replace_tzinfo created);
     set_item2 "current" "created" created')
    is_TypeError (* task_data['current'] == None *)
    pass.

(** Lines 80-84. *)
Definition fix_next : M unit :=
  try_except
    (next ← item "next";
     next' ← lift (replace_tzinfo next);
     set_item "next" next')
    is_AttributeError (* task_data['next'] == None *)
    pass.

(** Lines 85-91. *)
Definition fix_previous : M unit :=
  try_except
    (previous ← item "previous";
     created ← lift (subscript "created" previous);
     created' ← lift (replace_tzinfo created);
     set_item2 "previous" "created" created';;
     previous ← item "previous";
     completed ← lift (subscript "completed" previous);
     completed' ← lift (replace_tzinfo completed);
     set_item2 "previous" "completed" completed')
    is_TypeError (* task_data['previous'] == None *)
    pass.

(** Lines 95-98. *)
Definition default_notes : M unit :=
  try_except (item "notes";; pass) is_KeyError (set_item "notes" VNone).

(** Lines 102-107: [try: ... except KeyError: pass else: ...]; the [else]
    suite is outside the protection of the [try]. *)
Definition rename_text : M unit :=
  λ td,
    match pop "text" td with
    | (Ok title, td') => set_item "title" title td'
    | (Raise e, td') => if is_KeyError e then pass td' else (Raise e, td')
    end.

(** Lines 111-114. *)
Definition default_checklist : M unit :=
  try_except (item "checklist";; pass) is_KeyError
    (set_item "checklist" (VTuple [])).

(** Lines 118-121. *)
Definition migrate_repeat : M unit :=
  repeat ← item "repeat";
  flat ← lift (contains "min" repeat);
  if flat : bool then
    repeat ← item "repeat";
    min ← lift (subscript "min" repeat);
    repeat ← item "repeat";
    max ← lift (subscript "max" repeat);
    set_item "repeat"
      (VDict (<["on completion" := VDict (<["min" := min]> (<["max" := max]> ∅))]>
             (<["on deletion" := VNone]> ∅)))
  else pass.

Definition normalize : M unit :=
  fix_current;;
  fix_next;;
  fix_previous;;
  default_notes;;
  rename_text;;
  default_checklist;;
  migrate_repeat.

(** ** The remote service and the rest of the environment

    The [habitrpg] library and the service behind it, the clock, the random
    generator and the names that [mkstemp] tries are outside the script.  An
    [environment] holds what they answer during the cycle of one record. *)

Record tag := mk_tag { tag_name : string; tag_id : string }.

(** What [task.fetch()] does for [task = habitrpg.Todo(user, id)]: it
    returns, and [task.completed] and [task.date_completed] can be read, or
    it raises an [HTTPError], or it raises something else. *)
Inductive fetch_outcome :=
| Fetched (completed : bool) (date_completed : value)
| FetchHTTPError (status_code : Z)
| FetchError.

Record environment := mk_environment {
  todo_fetch : value → fetch_outcome;
  (** [datetime.datetime.now(TZ)] at line 134 *)
  now_closing : clock;
  (** the state of the random generator at the one [randint] of a cycle *)
  entropy : Z;
  (** [datetime.datetime.now(TZ)] at line 149 *)
  now_due : clock;
  user_tags_populated : bool;
  user_fetch : result unit;
  (** [user.tags] when the loop of [get_recurring_tag] reads it *)
  user_tags : list tag;
  tag_new : string → result tag;
  (** [habitrpg.Todo.new(user, title, notes, tags, checklist)], giving
      [task.id_code] and [task.date_created] *)
  todo_new : value → value → tag → option (list (value * bool)) →
             result (value * value);
  (** the random names that [mkstemp] tries, in order *)
  temp_names : list string
}.

Definition RECURRING_TAG_NAME : string := "recurring".

(** Lines 46-55. *)
Definition get_recurring_tag (env : environment) : result tag :=
  (if negb (user_tags_populated env) then user_fetch env else Ok tt);;
  match List.find (λ t, bool_decide (tag_name t = RECURRING_TAG_NAME))
                  (user_tags env) with
  | Some recurring_tag => Ok recurring_tag
  | None => tag_new env RECURRING_TAG_NAME
  end.

(** ** Closing and rescheduling (lines 123-146) *)

(** Lines 132-136 and 142-146, which differ in the slot of the repeat policy
    and in the anchor only.  The anchor is evaluated before [randint]. *)
Definition reschedule (slot : string) (anchor : value) (e : Z) : M unit :=
  repeat ← item "repeat";
  policy ← lift (subscript slot repeat);
  min ← lift (subscript "min" policy);
  min_seconds ← lift (py_mul min SECONDS_PER_DAY);
  repeat ← item "repeat";
  policy ← lift (subscript slot repeat);
  max ← lift (subscript "max" policy);
  max_seconds ← lift (py_mul max SECONDS_PER_DAY);
  seconds ← lift (randint_value min_seconds max_seconds e);
  delta ← lift (timedelta seconds);
  next ← lift (add_timedelta anchor delta);
  set_item "next" next.

(** Lines 123-146.  At line 140 [task_data['previous']] and
    [task_data['current']] are the same dict; line 141 drops the second
    reference, so the assignment shows in [previous] only. *)
Definition close_instance (env : environment) : M unit :=
  current ← item "current";
  if is_not_None current then
    current ← item "current";
    id ← lift (subscript "id" current);
    match todo_fetch env id with
    | FetchError => raise RemoteError
    | FetchHTTPError status_code =>
        if negb (status_code =? 404) then raise (HTTPError status_code)
        else
          current ← item "current";
          set_item "previous" current;;
          set_item "current" VNone;;
          reschedule "on deletion"
                     (VDatetime (datetime_now (now_closing env))) (entropy env)
    | Fetched completed date_completed =>
        if completed then
          current ← item "current";
          set_item "previous" current;;
          set_item2 "previous" "completed" date_completed;;
          set_item "current" VNone;;
          reschedule "on completion" date_completed (entropy env)
        else pass
    end
  else pass.

(** ** Spawning the next task (lines 148-161) *)

Fixpoint characters (s : string) : list value :=
  match s with
  | EmptyString => []
  | String c s' => VStr (String c EmptyString) :: characters s'
  end.

(** The elements that [for text in v] runs over.  A dict of the embedding
    does not record the order in which its keys were inserted, so the keys
    of a mapping come in the order of the map; the statements that depend on
    the order of the items take the checklist to be a list. *)
Definition iterate (v : value) : result (list value) :=
  match v with
  | VList l | VTuple l => Ok l
  | VStr s => Ok (characters s)
  | VDict m => Ok (VStr <$> (map_to_list m).*1)
  | _ => Raise TypeError
  end.

(** Lines 151-154: the checklist handed to [Todo.new]. *)
Definition checklist_to_submit : M (option (list (value * bool))) :=
  checklist ← item "checklist";
  if truthy checklist then
    checklist ← item "checklist";
    texts ← lift (iterate checklist);
    mret (Some ((λ text, (text, false)) <$> texts))
  else mret None.

Definition spawn_if_due (env : environment) : M unit :=
  next ← item "next";
  if is_not_None next then
    next ← item "next";
    due ← lift (ge_value (datetime_now (now_due env)) next);
    if due : bool then
      recurring_tag ← lift (get_recurring_tag env);
      checklist ← checklist_to_submit;
      title ← item "title";
      notes ← item "notes";
      task ← lift (todo_new env title notes recurring_tag checklist);
      set_item "current"
        (VDict (<["id" := task.1]> (<["created" := task.2]> ∅)));;
      set_item "next" VNone
    else pass
  else pass.

(** Lines 123-161. *)
Definition reconcile (env : environment) : M unit :=
  close_instance env;;
  spawn_if_due env.

(** Lines 75-161: what the script does to [task_data] between the load and
    the dump of one file. *)
Definition cycle (env : environment) : M unit :=
  normalize;;
  reconcile env.

(** ** The bootstrap of a record (lines 20-44) *)


(** Lines 31-41: the record of the new task [task], given by its
    [id_code] and [date_created]. *)
Definition new_task_data (task : value * value)
    (title notes min max checklist : value) : value :=
  VDict
    (<["current" := VDict (<["created" := task.2]> (<["id" := task.1]> ∅))]>
    (<["next" := VNone]> (<["previous" := VNone]>
    (<["repeat" := VDict (<["on deletion" := VNone]>
                         (<["on completion" :=
                              VDict (<["min" := min]> (<["max" := max]> ∅))]> ∅))]>
    (<["title" := title]> (<["notes" := notes]>
    (<["checklist" := if is_None checklist then VList [] else checklist]>
       ∅))))))).

(** ** The task directory and the write of a record (lines 163-170) *)

(** [TASK_DIRECTORY]: the text of each file, by file name. *)
Abbreviation directory := (gmap string string).

Inductive fs_op :=
| CreateFile (path : string)
| WriteFile (path : string) (text : string)
| RenameFile (src dst : string).

(** One operation on the directory: [CreateFile] makes an empty file,
    [WriteFile] writes the text of an open file, [RenameFile] is
    [os.rename], which replaces [dst]. *)
Definition apply_op (op : fs_op) : ST directory unit :=
  λ d,
    match op with
    | CreateFile path => (Ok tt, <[path := ""]> d)
    | WriteFile path text => (Ok tt, <[path := text]> d)
    | RenameFile src dst =>
        match d !! src with
        | Some text => (Ok tt, <[dst := text]> (delete src d))
        | None => (Raise FileNotFoundError, d)
        end
    end.

Fixpoint apply_ops (ops : list fs_op) : ST directory unit :=
  match ops with
  | [] => mret tt
  | op :: ops' => apply_op op;; apply_ops ops'
  end.

(** The path that [mkstemp(suffix='.tmp', prefix='.')] builds from a random
    name. *)
Definition temp_path (name : string) : string := "." +:+ name +:+ ".tmp".

(** [mkstemp] opens with [O_EXCL]: a name that exists is skipped, and
    [FileExistsError] is raised when every try has failed. *)
Fixpoint mkstemp (d : directory) (names : list string) : result string :=
  match names with
  | [] => Raise FileExistsError
  | name :: names' =>
      if bool_decide (is_Some (d !! temp_path name)) then mkstemp d names'
      else Ok (temp_path name)
  end.

(** Lines 166-170, once [mkstemp] has chosen [temp]. *)
Definition persist_ops (temp file_path text : string) : list fs_op :=
  [CreateFile temp; WriteFile temp text; RenameFile temp file_path].

(** [filename.startswith('.')] *)
Definition startswith_dot (filename : string) : bool :=
  String.prefix "." filename.

Section Script.
(** [yaml.safe_load] and [yaml.safe_dump], of the PyYAML library. *)
Variable safe_load : string → result value.
Variable safe_dump : value → string.

(** Lines 62-170 for one file name: the operations on the directory that
    its cycle ends with. *)
Definition file_ops (d : directory) (filename : string) (env : environment)
  : result (list fs_op) :=
  match d !! filename with
  | None => Raise FileNotFoundError
  | Some text =>
      task_data ← safe_load text;
      match cycle env task_data with
      | (Raise e, _) => Raise e
      | (Ok _, task_data') =>
          temp ← mkstemp d (temp_names env);
          Ok (persist_ops temp filename (safe_dump task_data'))
      end
  end.

Definition process_file (filename : string) (env : environment)
  : ST directory unit :=
  λ d,
    match file_ops d filename env with
    | Ok ops => apply_ops ops d
    | Raise e => (Raise e, d)
    end.

(** Lines 59-170: the loop over [os.listdir(TASK_DIRECTORY)]; [envs] gives
    the environment of the cycle of each file. *)
Fixpoint run (listing : list string) (envs : string → environment)
  : ST directory unit :=
  match listing with
  | [] => mret tt
  | filename :: listing' =>
      if startswith_dot filename then run listing' envs
      else process_file filename (envs filename);; run listing' envs
  end.
End Script.

(** * Notions used in the statements *)

(** ** What each repair makes of the entry it works on

    The repairs of lines 75-91 and 118-121 each rewrite one entry of
    [task_data].  The functions below give the new entry from the old one,
    or the exception that leaves the [try]; the lemmas [fix_current_updates]
    to [migrate_repeat_updates] relate them to the repairs. *)

Definition repaired_current (current : value) : result value :=
  match current with
  | VDict c =>
      match c !! "created" with
      | None => Raise KeyError
      | Some (VDatetime d) => Ok (VDict (<["created" := VDatetime (replace_utc d)]> c))
      | Some (VStr _) => Ok current
      | Some _ => Raise AttributeError
      end
  | _ => Ok current
  end.

Definition repaired_next (next : value) : result value :=
  match next with
  | VDatetime d => Ok (VDatetime (replace_utc d))
  | VStr _ => Raise TypeError
  | _ => Ok next
  end.

Definition repaired_previous (previous : value) : result value :=
  match previous with
  | VDict p =>
      match p !! "created" with
      | None => Raise KeyError
      | Some (VDatetime d) =>
          let p' := <["created" := VDatetime (replace_utc d)]> p in
          match p !! "completed" with
          | None => Raise KeyError
          | Some (VDatetime d') =>
              Ok (VDict (<["completed" := VDatetime (replace_utc d')]> p'))
          | Some (VStr _) => Ok (VDict p')
          | Some _ => Raise AttributeError
          end
      | Some (VStr _) => Ok previous
      | Some _ => Raise AttributeError
      end
  | _ => Ok previous
  end.

Definition repaired_repeat (repeat : value) : result value :=
  match contains "min" repeat with
  | Ok true =>
      match subscript "min" repeat, subscript "max" repeat with
      | Ok min, Ok max =>
          Ok (VDict (<["on completion" := VDict (<["min" := min]> (<["max" := max]> ∅))]>
                    (<["on deletion" := VNone]> ∅)))
      | Raise e, _ | _, Raise e => Raise e
      end
  | Ok false => Ok repeat
  | Raise e => Raise e
  end.

(** The repair [s] succeeds on a dict exactly when the entry [k] is there
    and [g] accepts it, and then it replaces that entry by what [g] gives. *)
Definition updates (s : M unit) (k : string) (g : value → result value) : Prop :=
  ∀ m td',
    s (VDict m) = (Ok tt, td') ↔
    ∃ p p', m !! k = Some p ∧ g p = Ok p' ∧ td' = VDict (<[k := p']> m).

(** [s] leaves [td] as it is. *)
Definition fixed (s : M unit) (td : value) : Prop := s td = (Ok tt, td).

(** [s] on a dict works on the entries [ks] only, leaves its result fixed,
    and whether a dict is fixed depends on the entry [k] only. *)
Record local (s : M unit) (k : string) (ks : list string) : Prop := {
  local_touches m td' :
    s (VDict m) = (Ok tt, td') →
    ∃ m', td' = VDict m' ∧ ∀ k', k' ∉ ks → m' !! k' = m !! k';
  local_settles m td' : s (VDict m) = (Ok tt, td') → fixed s td';
  local_depends m m' :
    m !! k = m' !! k → fixed s (VDict m) → fixed s (VDict m')
}.

(** ** The lifecycle of a record *)

(** The dict after lines 130-131 and 139-141. *)
Definition closed (previous : gmap string value) (m : gmap string value)
  : gmap string value :=
  <["current" := VNone]> (<["previous" := VDict previous]> m).

(** The dict after lines 159-161. *)
Definition spawned (task : value * value) (m : gmap string value)
  : gmap string value :=
  <["next" := VNone]>
    (<["current" := VDict (<["id" := task.1]> (<["created" := task.2]> ∅))]> m).

(** Exactly one of [task_data['current']] and [task_data['next']] is not
    [None]. *)
Definition exactly_one (td : value) : bool :=
  match subscript "current" td, subscript "next" td with
  | Ok current, Ok next => xorb (is_not_None current) (is_not_None next)
  | _, _ => false
  end.

(** The [min] and [max] of a slot of the repeat policy. *)
Definition policy (slot : string) (td : value) : result (value * value) :=
  repeat ← subscript "repeat" td;
  interval ← subscript slot repeat;
  min ← subscript "min" interval;
  max ← subscript "max" interval;
  Ok (min, max).

(** The slot of the repeat policy and the anchor of the reschedule that the
    fetch of the task [id] leads to: the completion time of a completed task,
    the time of the observation for a task that is gone (404). *)
Definition transition (env : environment) (id : value) : option (string * value) :=
  match todo_fetch env id with
  | Fetched true date_completed => Some ("on completion", date_completed)
  | FetchHTTPError status_code =>
      if status_code =? 404
      then Some ("on deletion", VDatetime (datetime_now (now_closing env)))
      else None
  | _ => None
  end.

(** [next] is [anchor] moved by [min] to [max] days, bounds included. *)
Definition in_window (anchor next : datetime) (min max : Z) : Prop :=
  tzinfo next = tzinfo anchor ∧
  wall anchor + min * SECONDS_PER_DAY * MICROSECONDS ≤ wall next ∧
  wall next ≤ wall anchor + max * SECONDS_PER_DAY * MICROSECONDS.

(** ** Sample records and environments *)

(** A time of day (UTC) on a day counted from 0001-01-01. *)
Definition utc_time (day seconds : Z) : datetime :=
  {| wall := (day * SECONDS_PER_DAY + seconds) * MICROSECONDS;
     tzinfo := Some 0 |}.

Definition interval (min max : Z) : value :=
  VDict (<["min" := VInt min]> (<["max" := VInt max]> ∅)).

Definition sample_instance : gmap string value :=
  <["id" := VStr "5f2c"]> (<["created" := VDatetime (utc_time 735600 0)]> ∅).

(** A record in the shape that [create_recurring_task] writes, with a policy
    for deleted tasks added. *)
Definition sample_map (current next on_deletion : value) : gmap string value :=
  <["current" := current]> (<["next" := next]> (<["previous" := VNone]>
  (<["repeat" := VDict (<["on completion" := interval 1 3]>
                       (<["on deletion" := on_deletion]> ∅))]>
  (<["title" := VStr "Water the plants"]> (<["notes" := VNone]>
  (<["checklist" := VList [VStr "kitchen"; VStr "balcony"]]> ∅)))))).

Definition live_map (on_deletion : value) : gmap string value :=
  sample_map (VDict sample_instance) VNone on_deletion.

Definition dormant_map : gmap string value :=
  sample_map VNone (VDatetime (utc_time 735610 0)) VNone.

Definition unscheduled_map : gmap string value :=
  sample_map VNone VNone VNone.

(** A record of the oldest shape: naive timestamps, [text], a flat repeat
    policy, no [notes] and no [checklist]. *)
Definition legacy_map : gmap string value :=
  <["current" := VDict (<["id" := VStr "5f2c"]>
       (<["created" := VDatetime {| wall := wall (utc_time 735600 0);
                                    tzinfo := None |}]> ∅))]>
  (<["next" := VNone]> (<["previous" := VNone]>
  (<["repeat" := interval 2 5]> (<["text" := VStr "Water the plants"]> ∅)))).

(** An environment in which the fetch of every task has the given outcome,
    the clock reads [now] (and a microsecond later at line 149), the
    recurring tag exists, and the service creates the task that is asked
    for. *)
Definition sample_env (outcome : fetch_outcome) (now : clock) (e : Z)
  : environment :=
  {| todo_fetch := λ _, outcome;
     now_closing := now;
     entropy := e;
     now_due := mk_clock (clock_instant now + 1) (clock_offset now);
     user_tags_populated := true;
     user_fetch := Ok tt;
     user_tags := [mk_tag "chores" "t-1"; mk_tag RECURRING_TAG_NAME "t-2"];
     tag_new := λ _, Raise RemoteError;
     todo_new := λ _ _ _ _, Ok (VStr "77d0", VDatetime (utc_time 735620 5));
     temp_names := ["tmpk3x9q2"] |}.

Definition noon (day : Z) : clock :=
  mk_clock (wall (utc_time day 43200)) 0.

(** A summer noon, when [TZ] is an hour ahead of UTC. *)
Definition summer_noon (day : Z) : clock :=
  mk_clock (wall (utc_time day 39600)) (3600 * MICROSECONDS).

(** The task was completed on day 735605 and the script runs at noon of day
    735620. *)
Definition env_completed_long_ago (e : Z) : environment :=
  sample_env (Fetched true (VDatetime (utc_time 735605 0))) (noon 735620) e.

(** The task was completed on day 735605 and the script runs at noon of the
    same day. *)
Definition env_completed_today (e : Z) : environment :=
  sample_env (Fetched true (VDatetime (utc_time 735605 0))) (noon 735605) e.

(** The task is gone: the service answers 404. *)
Definition env_gone : environment :=
  sample_env (FetchHTTPError 404) (summer_noon 735605) 0.

(** The service is down: it answers 500. *)
Definition env_unavailable : environment :=
  sample_env (FetchHTTPError 500) (noon 735620) 0.

(** A stand-in for the YAML codec on a directory of three files: the text
    ["live"] is the YAML of [live_map], ["dormant"] of [dormant_map] and
    ["unscheduled"] of [unscheduled_map]; every dump gives ["updated"]. *)
Definition table_load (text : string) : result value :=
  if bool_decide (text = "live") then Ok (VDict (live_map (interval 1 3)))
  else if bool_decide (text = "dormant") then Ok (VDict dormant_map)
  else if bool_decide (text = "unscheduled") then Ok (VDict unscheduled_map)
  else Raise YAMLError.

Definition table_dump (td : value) : string := "updated".

Definition sample_directory : directory :=
  <["a.yaml" := "live"]> (<["b.yaml" := "dormant"]>
  (<["c.yaml" := "unscheduled"]> ∅)).

(** The service is down during the cycle of [a.yaml] and up during the
    others. *)
Definition sample_envs (filename : string) : environment :=
  if bool_decide (filename = "a.yaml") then env_unavailable
  else env_completed_long_ago 0.

(** The task is still open. *)
Definition env_still_open : environment :=
  sample_env (Fetched false VNone) (noon 735605) 0.

(** The script runs at noon of day 735609, the day before the date of
    [dormant_map]. *)
Definition env_day_before : environment :=
  sample_env FetchError (noon 735609) 0.

(** * Properties *)

(** ** Proof tools

    The maps of the script have string keys, and unrestricted simplification
    would compute on their encoding; the tactics below unfold the monad and
    the Python primitives only, and rewrite the lookups. *)

Ltac mred :=
  cbv beta iota zeta delta
    [mbind ST_bind mret ST_ret result_bind result_ret lift raise item set_item
     set_item2 pass try_except pop subscript store replace_tzinfo
     is_TypeError is_AttributeError is_KeyError is_None is_not_None negb
     py_mul randint_value add_timedelta ge_value fst snd] in *.

Ltac look :=
  repeat (rewrite lookup_insert_eq in * || (rewrite lookup_insert_ne in * by done)
          || rewrite lookup_delete_eq in * || (rewrite lookup_delete_ne in * by done)).

(** Evaluation with the lookups that the hypotheses give. *)
Ltac run :=
  repeat (mred; look;
          match goal with
          | H : ?x = _ |- context [match ?x with _ => _ end] => rewrite H
          | H : ?x = _, H' : context [match ?x with _ => _ end] |- _ =>
              rewrite H in H'
          end);
  mred; look.

(** Case analysis along the matches of a hypothesis, innermost first. *)
Ltac cases_hyp H :=
  repeat (mred; look;
          match type of H with
          | context [match ?x with _ => _ end] =>
              lazymatch x with
              | context [match _ with _ => _ end] => fail
              | _ => destruct x eqn:?; simplify_eq
              end
          end).

(** Equality of dicts, entry by entry. *)
Ltac map_eq_tac :=
  lazymatch goal with
  | |- (_, _) = (_, _) => f_equal; map_eq_tac
  | |- VDict _ = VDict _ => f_equal; map_eq_tac
  | |- Some _ = Some _ => f_equal; map_eq_tac
  | |- @eq (gmap _ _) _ _ =>
      apply map_eq; intros ?; rewrite ?lookup_insert, ?lookup_delete;
      repeat case_decide; simplify_eq; map_eq_tac
  | |- _ => try done
  end.

Lemma insert_fixed (k : string) (x : value) (m : gmap string value) :
  <[k := x]> m = m → m !! k = Some x.
Proof. intros <-. apply lookup_insert_eq. Qed.

Lemma not_elem_of_one (k k' : string) : k' ∉ [k] ↔ k ≠ k'.
Proof. rewrite list_elem_of_singleton. split; intros H ?; by apply H. Qed.

Lemma not_elem_of_two (k1 k2 k' : string) :
  k' ∉ [k1; k2] ↔ k1 ≠ k' ∧ k2 ≠ k'.
Proof.
  rewrite not_elem_of_cons, not_elem_of_one. split; intros [H ?]; split; try done;
    intros ?; by apply H.
Qed.

Lemma bind_ok {S A B} (s : ST S A) (k : A → ST S B) st st'' b :
  (s ≫= k) st = (Ok b, st'') ↔ ∃ a st', s st = (Ok a, st') ∧ k a st' = (Ok b, st'').
Proof.
  unfold mbind, ST_bind. split.
  - destruct (s st) as [[a|e] st']; [eauto|done].
  - by intros (a & st' & -> & ?).
Qed.

(** ** The repairs, entry by entry *)

Ltac update s g :=
  intros m td'; unfold s; split;
  [ intros H; cases_hyp H; eexists _, _;
    (split; [first [reflexivity | eassumption]|]);
    unfold g; run; (split; [reflexivity|]); map_eq_tac
  | intros (p & p' & Hp & Hg & ->); unfold g in Hg; cases_hyp Hg; run;
    map_eq_tac ].

Lemma fix_current_updates : updates fix_current "current" repaired_current.
Proof. update fix_current repaired_current. Qed.

Lemma fix_next_updates : updates fix_next "next" repaired_next.
Proof. update fix_next repaired_next. Qed.

Lemma fix_previous_updates : updates fix_previous "previous" repaired_previous.
Proof. update fix_previous repaired_previous. Qed.

Lemma migrate_repeat_updates : updates migrate_repeat "repeat" repaired_repeat.
Proof. update migrate_repeat repaired_repeat. Qed.

(** The three other repairs cannot fail on a dict. *)

Lemma default_notes_dict m :
  default_notes (VDict m) =
  (Ok tt, VDict (if m !! "notes" is Some _ then m else <["notes" := VNone]> m)).
Proof. unfold default_notes. destruct (m !! "notes") eqn:E; run; done. Qed.

Lemma rename_text_dict m :
  rename_text (VDict m) =
  (Ok tt, VDict (if m !! "text" is Some title
                 then <["title" := title]> (delete "text" m) else m)).
Proof. unfold rename_text. destruct (m !! "text") eqn:E; run; done. Qed.

Lemma default_checklist_dict m :
  default_checklist (VDict m) =
  (Ok tt, VDict (if m !! "checklist" is Some _ then m
                 else <["checklist" := VTuple []]> m)).
Proof. unfold default_checklist. destruct (m !! "checklist") eqn:E; run; done. Qed.

(** A second pass of a repair over its own result changes nothing. *)

Lemma repaired_current_idem p p' :
  repaired_current p = Ok p' → repaired_current p' = Ok p'.
Proof.
  unfold repaired_current. intros H. cases_hyp H; run; try done.
  by rewrite insert_insert_eq.
Qed.

Lemma repaired_next_idem p p' :
  repaired_next p = Ok p' → repaired_next p' = Ok p'.
Proof. unfold repaired_next. intros H. cases_hyp H; done. Qed.

Lemma repaired_previous_idem p p' :
  repaired_previous p = Ok p' → repaired_previous p' = Ok p'.
Proof.
  unfold repaired_previous. intros H. cases_hyp H; run; try done;
    do 2 f_equal; map_eq_tac.
Qed.

Lemma repaired_repeat_idem p p' :
  repaired_repeat p = Ok p' → repaired_repeat p' = Ok p'.
Proof.
  unfold repaired_repeat. intros H.
  destruct (contains "min" p) as [[]|] eqn:E; [|by simplify_eq; rewrite E|done].
  destruct (subscript "min" p), (subscript "max" p); by simplify_eq.
Qed.

(** ** The repairs do not interfere *)

Lemma updates_local s k g :
  updates s k g → (∀ p p', g p = Ok p' → g p' = Ok p') → local s k [k].
Proof.
  intros Hs Hg. split.
  - intros m td' (p & p' & Hp & Hgp & ->)%Hs. eexists; split; [done|].
    intros k' Hk'%not_elem_of_one. by apply lookup_insert_ne.
  - intros m td' (p & p' & Hp & Hgp & ->)%Hs. apply Hs.
    exists p', p'. rewrite lookup_insert_eq, insert_insert_eq. eauto.
  - intros m m' Hk (p & p' & Hp & Hgp & Heq)%Hs. apply Hs.
    injection Heq as Heq. symmetry in Heq. apply insert_fixed in Heq.
    rewrite Hp in Heq. injection Heq as <-.
    exists p, p. rewrite <-Hk. by rewrite insert_id by (by rewrite <-Hk).
Qed.

Lemma fix_current_local : local fix_current "current" ["current"].
Proof. eapply updates_local; eauto using fix_current_updates, repaired_current_idem. Qed.
Lemma fix_next_local : local fix_next "next" ["next"].
Proof. eapply updates_local; eauto using fix_next_updates, repaired_next_idem. Qed.
Lemma fix_previous_local : local fix_previous "previous" ["previous"].
Proof. eapply updates_local; eauto using fix_previous_updates, repaired_previous_idem. Qed.
Lemma migrate_repeat_local : local migrate_repeat "repeat" ["repeat"].
Proof. eapply updates_local; eauto using migrate_repeat_updates, repaired_repeat_idem. Qed.

Lemma default_notes_local : local default_notes "notes" ["notes"].
Proof.
  split; unfold fixed.
  - intros m td'. rewrite default_notes_dict. intros [= <-].
    eexists; split; [done|]. intros k' Hk'%not_elem_of_one.
    destruct (m !! "notes"); [done|]. by apply lookup_insert_ne.
  - intros m td'. rewrite default_notes_dict. intros [= <-].
    rewrite default_notes_dict.
    destruct (m !! "notes") eqn:E; [by rewrite E|by rewrite lookup_insert_eq].
  - intros m m' Hk. rewrite !default_notes_dict, <-Hk.
    destruct (m !! "notes") eqn:E; [done|].
    intros [= H%insert_fixed]. by rewrite E in H.
Qed.

Lemma default_checklist_local : local default_checklist "checklist" ["checklist"].
Proof.
  split; unfold fixed.
  - intros m td'. rewrite default_checklist_dict. intros [= <-].
    eexists; split; [done|]. intros k' Hk'%not_elem_of_one.
    destruct (m !! "checklist"); [done|]. by apply lookup_insert_ne.
  - intros m td'. rewrite default_checklist_dict. intros [= <-].
    rewrite default_checklist_dict.
    destruct (m !! "checklist") eqn:E; [by rewrite E|by rewrite lookup_insert_eq].
  - intros m m' Hk. rewrite !default_checklist_dict, <-Hk.
    destruct (m !! "checklist") eqn:E; [done|].
    intros [= H%insert_fixed]. by rewrite E in H.
Qed.

Lemma rename_text_local : local rename_text "text" ["text"; "title"].
Proof.
  split; unfold fixed.
  - intros m td'. rewrite rename_text_dict. intros [= <-].
    eexists; split; [done|]. intros k' [??]%not_elem_of_two.
    destruct (m !! "text"); [|done].
    by rewrite lookup_insert_ne, lookup_delete_ne.
  - intros m td'. rewrite rename_text_dict. intros [= <-].
    rewrite rename_text_dict.
    destruct (m !! "text") eqn:E; [|by rewrite E].
    by rewrite lookup_insert_ne, lookup_delete_eq.
  - intros m m' Hk. rewrite !rename_text_dict, <-Hk.
    destruct (m !! "text") eqn:E; [|done].
    intros [= H]. apply (f_equal (lookup "text")) in H.
    rewrite lookup_insert_ne, lookup_delete_eq in H by done. by rewrite E in H.
Qed.

(** ** The normaliser is idempotent *)

Lemma normalize_needs_dict td td' :
  normalize td = (Ok tt, td') → ∃ m, td = VDict m.
Proof.
  destruct td; eauto; unfold normalize, fix_current, fix_next; by run.
Qed.

(** A successful normalisation, repair by repair. *)
Lemma normalize_steps m td' :
  normalize (VDict m) = (Ok tt, td') →
  ∃ m1 m2 m3 m4 m5 m6 m7,
    td' = VDict m7 ∧
    fix_current (VDict m) = (Ok tt, VDict m1) ∧
    fix_next (VDict m1) = (Ok tt, VDict m2) ∧
    fix_previous (VDict m2) = (Ok tt, VDict m3) ∧
    default_notes (VDict m3) = (Ok tt, VDict m4) ∧
    rename_text (VDict m4) = (Ok tt, VDict m5) ∧
    default_checklist (VDict m5) = (Ok tt, VDict m6) ∧
    migrate_repeat (VDict m6) = (Ok tt, VDict m7).
Proof.
  unfold normalize.
  intros ([] & td1 & H1 & ([] & td2 & H2 & ([] & td3 & H3 & ([] & td4 & H4 &
    ([] & td5 & H5 & ([] & td6 & H6 & H7)%bind_ok)%bind_ok)%bind_ok)%bind_ok)%bind_ok)%bind_ok.
  destruct (local_touches _ _ _ fix_current_local _ _ H1) as (m1 & -> & _).
  destruct (local_touches _ _ _ fix_next_local _ _ H2) as (m2 & -> & _).
  destruct (local_touches _ _ _ fix_previous_local _ _ H3) as (m3 & -> & _).
  destruct (local_touches _ _ _ default_notes_local _ _ H4) as (m4 & -> & _).
  destruct (local_touches _ _ _ rename_text_local _ _ H5) as (m5 & -> & _).
  destruct (local_touches _ _ _ default_checklist_local _ _ H6) as (m6 & -> & _).
  destruct (local_touches _ _ _ migrate_repeat_local _ _ H7) as (m7 & -> & _).
  by exists m1, m2, m3, m4, m5, m6, m7.
Qed.

(** A repair that its own run has settled stays settled through a later
    repair that works on other entries. *)
Lemma fixed_preserved s k ks s' k' ks' m m' :
  local s k ks → local s' k' ks' → k ∉ ks' →
  fixed s (VDict m) → s' (VDict m) = (Ok tt, VDict m') → fixed s (VDict m').
Proof.
  intros Hs Hs' Hk Hfix Hrun.
  destruct (local_touches _ _ _ Hs' _ _ Hrun) as (m'' & [= <-] & Hm).
  eapply (local_depends _ _ _ Hs); [|done]. by rewrite Hm.
Qed.

Lemma fixed_bind (s k : M unit) td : fixed s td → fixed k td → fixed (s;; k) td.
Proof. unfold fixed, mbind, ST_bind. by intros -> ->. Qed.

(** [through L L' H]: the repair of [L], settled before the run [H] of the
    repair of [L'], is settled after it. *)
Ltac through L L' H :=
  eapply (fixed_preserved _ _ _ _ _ _ _ _ L L');
  [first [by apply not_elem_of_one | by apply not_elem_of_two] | | exact H].

Lemma normalize_fixed td td' :
  normalize td = (Ok tt, td') → normalize td' = (Ok tt, td').
Proof.
  intros H. destruct (normalize_needs_dict _ _ H) as [m ->].
  apply normalize_steps in H
    as (m1 & m2 & m3 & m4 & m5 & m6 & m7 & -> & H1 & H2 & H3 & H4 & H5 & H6 & H7).
  pose proof fix_current_local as L1. pose proof fix_next_local as L2.
  pose proof fix_previous_local as L3. pose proof default_notes_local as L4.
  pose proof rename_text_local as L5. pose proof default_checklist_local as L6.
  pose proof migrate_repeat_local as L7.
  repeat apply fixed_bind.
  - through L1 L7 H7. through L1 L6 H6. through L1 L5 H5. through L1 L4 H4.
    through L1 L3 H3. through L1 L2 H2. by apply (local_settles _ _ _ L1 m).
  - through L2 L7 H7. through L2 L6 H6. through L2 L5 H5. through L2 L4 H4.
    through L2 L3 H3. by apply (local_settles _ _ _ L2 m1).
  - through L3 L7 H7. through L3 L6 H6. through L3 L5 H5. through L3 L4 H4.
    by apply (local_settles _ _ _ L3 m2).
  - through L4 L7 H7. through L4 L6 H6. through L4 L5 H5.
    by apply (local_settles _ _ _ L4 m3).
  - through L5 L7 H7. through L5 L6 H6. by apply (local_settles _ _ _ L5 m4).
  - through L6 L7 H7. by apply (local_settles _ _ _ L6 m5).
  - by apply (local_settles _ _ _ L7 m6).
Qed.

(** ** Random draws and time arithmetic *)

Lemma randint_range a b e s : randint a b e = Ok s → a ≤ s ≤ b.
Proof.
  unfold randint. destruct (Z.leb_spec a b); [|done]. intros [= <-].
  pose proof (Z.mod_pos_bound e (b - a + 1)). lia.
Qed.

Lemma randint_onto a b s : a ≤ s ≤ b → randint a b (s - a) = Ok s.
Proof.
  intros. unfold randint. destruct (Z.leb_spec a b); [|lia].
  rewrite Z.mod_small by lia. f_equal. lia.
Qed.

Lemma timedelta_ok s delta : timedelta s = Ok delta → delta = s * MICROSECONDS.
Proof. unfold timedelta. case_match; congruence. Qed.

(** ** The three phases of the reconciliation, case by case *)

Lemma reschedule_ok slot anchor e m td' :
  reschedule slot anchor e (VDict m) = (Ok tt, td') →
  ∃ rp pol mn mx a s delta n,
    m !! "repeat" = Some (VDict rp) ∧ rp !! slot = Some (VDict pol) ∧
    pol !! "min" = Some (VInt mn) ∧ pol !! "max" = Some (VInt mx) ∧
    anchor = VDatetime a ∧
    randint (mn * SECONDS_PER_DAY) (mx * SECONDS_PER_DAY) e = Ok s ∧
    timedelta s = Ok delta ∧ datetime_add a delta = Ok n ∧
    td' = VDict (<["next" := VDatetime n]> m).
Proof.
  unfold reschedule. intros H. cases_hyp H.
  by eexists _, _, _, _, _, _, _, _.
Qed.

Lemma reschedule_run slot e m rp pol mn mx a s delta n :
  m !! "repeat" = Some (VDict rp) → rp !! slot = Some (VDict pol) →
  pol !! "min" = Some (VInt mn) → pol !! "max" = Some (VInt mx) →
  randint (mn * SECONDS_PER_DAY) (mx * SECONDS_PER_DAY) e = Ok s →
  timedelta s = Ok delta → datetime_add a delta = Ok n →
  reschedule slot (VDatetime a) e (VDict m) =
  (Ok tt, VDict (<["next" := VDatetime n]> m)).
Proof. intros. unfold reschedule. by run. Qed.

Lemma close_instance_ok env m td' :
  close_instance env (VDict m) = (Ok tt, td') →
  (m !! "current" = Some VNone ∧ td' = VDict m) ∨
  ∃ c id,
    m !! "current" = Some (VDict c) ∧ c !! "id" = Some id ∧
    ((∃ T, todo_fetch env id = Fetched false T ∧ td' = VDict m) ∨
     (∃ T, todo_fetch env id = Fetched true T ∧
        reschedule "on completion" T (entropy env)
          (VDict (closed (<["completed" := T]> c) m)) = (Ok tt, td')) ∨
     (todo_fetch env id = FetchHTTPError 404 ∧
        reschedule "on deletion" (VDatetime (datetime_now (now_closing env)))
          (entropy env) (VDict (closed c m)) = (Ok tt, td'))).
Proof.
  unfold close_instance. intros H.
  destruct (m !! "current") as [current|] eqn:Hc; [|by run].
  destruct current; revert H; run; try done; [intros [= <-]; by left|].
  rename m0 into c. destruct (c !! "id") as [id|] eqn:Hid; [|done].
  right. exists c, id. do 2 (split; [done|]).
  destruct (todo_fetch env id) as [[] T|status|]; run; try done.
  - right; left. exists T. split; [done|].
    revert H. unfold closed. by rewrite insert_insert_eq.
  - left. exists T. by injection H as <-.
  - destruct (status =? 404) eqn:E; run; [|done].
    apply Z.eqb_eq in E. subst status. by right; right.
Qed.

Lemma checklist_to_submit_state td : (checklist_to_submit td).2 = td.
Proof.
  unfold checklist_to_submit. destruct td; run; try done.
  destruct (m !! "checklist") as [checklist|] eqn:E; [|done].
  destruct (truthy checklist); [|done]. run.
  by destruct (iterate checklist).
Qed.

Lemma spawn_if_due_ok env m td' :
  spawn_if_due env (VDict m) = (Ok tt, td') →
  (m !! "next" = Some VNone ∧ td' = VDict m) ∨
  ∃ n,
    m !! "next" = Some (VDatetime n) ∧
    ((datetime_ge (datetime_now (now_due env)) n = Ok false ∧ td' = VDict m) ∨
     (datetime_ge (datetime_now (now_due env)) n = Ok true ∧
      ∃ recurring_tag checklist title notes task,
        get_recurring_tag env = Ok recurring_tag ∧
        (checklist_to_submit (VDict m)).1 = Ok checklist ∧
        m !! "title" = Some title ∧ m !! "notes" = Some notes ∧
        todo_new env title notes recurring_tag checklist = Ok task ∧
        td' = VDict (spawned task m))).
Proof.
  unfold spawn_if_due. intros H.
  destruct (m !! "next") as [next|] eqn:Hn; [|by run].
  destruct next; revert H; run; try done; [intros [= <-]; by left|].
  intros H. right. exists d. split; [done|].
  destruct (datetime_ge _ d) as [[]|]; [|left; by injection H as <-|done].
  right. split; [done|].
  destruct (get_recurring_tag env) as [recurring_tag|]; [|done].
  pose proof (checklist_to_submit_state (VDict m)) as Hs.
  destruct (checklist_to_submit (VDict m)) as [[checklist|] s]; [|done].
  cbn [snd] in Hs. subst s. run.
  destruct (m !! "title") as [title|]; [|done].
  destruct (m !! "notes") as [notes|]; [|done].
  destruct (todo_new env title notes recurring_tag checklist) as [task|] eqn:Hnew;
    [|done].
  injection H as <-. by exists recurring_tag, checklist, title, notes, task.
Qed.

Lemma spawn_if_due_run env m n recurring_tag checklist title notes task :
  m !! "next" = Some (VDatetime n) →
  datetime_ge (datetime_now (now_due env)) n = Ok true →
  get_recurring_tag env = Ok recurring_tag →
  (checklist_to_submit (VDict m)).1 = Ok checklist →
  m !! "title" = Some title → m !! "notes" = Some notes →
  todo_new env title notes recurring_tag checklist = Ok task →
  spawn_if_due env (VDict m) = (Ok tt, VDict (spawned task m)).
Proof.
  intros Hn Hge Htag Hcl Ht Hno Hnew. unfold spawn_if_due. run.
  pose proof (checklist_to_submit_state (VDict m)) as Hs.
  destruct (checklist_to_submit (VDict m)) as [r s]. cbn [fst snd] in *.
  subst. by run.
Qed.

Lemma exactly_one_dict m current next :
  m !! "current" = Some current → m !! "next" = Some next →
  exactly_one (VDict m) = xorb (is_not_None current) (is_not_None next).
Proof. intros Hc Hn. unfold exactly_one, subscript. by rewrite Hc, Hn. Qed.

Lemma repaired_current_None c c' :
  repaired_current c = Ok c' → is_None c' = is_None c.
Proof. unfold repaired_current. intros H. by cases_hyp H. Qed.

Lemma repaired_next_None n n' :
  repaired_next n = Ok n' → is_None n' = is_None n.
Proof. unfold repaired_next. intros H. by cases_hyp H. Qed.

Lemma normalize_current_next m td' :
  normalize (VDict m) = (Ok tt, td') →
  ∃ m' c c' n n',
    td' = VDict m' ∧
    m !! "current" = Some c ∧ m' !! "current" = Some c' ∧
    repaired_current c = Ok c' ∧
    m !! "next" = Some n ∧ m' !! "next" = Some n' ∧
    repaired_next n = Ok n'.
Proof.
  intros (m1 & m2 & m3 & m4 & m5 & m6 & m7 & -> & H1 & H2 & H3 & H4 & H5 & H6 & H7)
    %normalize_steps.
  apply fix_current_updates in H1 as (c & c' & Hc & Hc' & [= ->]).
  apply fix_next_updates in H2 as (n & n' & Hn & Hn' & [= ->]).
  rewrite lookup_insert_ne in Hn by done.
  destruct (local_touches _ _ _ fix_previous_local _ _ H3) as (? & [= <-] & T3).
  destruct (local_touches _ _ _ default_notes_local _ _ H4) as (? & [= <-] & T4).
  destruct (local_touches _ _ _ rename_text_local _ _ H5) as (? & [= <-] & T5).
  destruct (local_touches _ _ _ default_checklist_local _ _ H6) as (? & [= <-] & T6).
  destruct (local_touches _ _ _ migrate_repeat_local _ _ H7) as (? & [= <-] & T7).
  exists m7, c, c', n, n'. repeat split; try done.
  - rewrite T7, T6, T5, T4, T3
      by (by apply not_elem_of_one || by apply not_elem_of_two).
    by rewrite lookup_insert_ne, lookup_insert_eq.
  - rewrite T7, T6, T5, T4, T3
      by (by apply not_elem_of_one || by apply not_elem_of_two).
    by rewrite lookup_insert_eq.
Qed.

(** The reconciliation works on the record as normalised. *)
Lemma cycle_after_normalize env td td1 :
  normalize td = (Ok tt, td1) → cycle env td = reconcile env td1.
Proof. intros H. unfold cycle, mbind, ST_bind. by rewrite H. Qed.

(** An error of the service other than 404 leaves the cycle at line 129,
    before any assignment to the record. *)
Lemma non_404_is_propagated env m c id status_code :
  m !! "current" = Some (VDict c) → c !! "id" = Some id →
  todo_fetch env id = FetchHTTPError status_code → status_code ≠ 404 →
  reconcile env (VDict m) = (Raise (HTTPError status_code), VDict m).
Proof.
  intros Hc Hid Hfetch Hcode%Z.eqb_neq.
  unfold reconcile, close_instance. by run.
Qed.

(** C1.  If exactly one of [task_data['current']] and [task_data['next']]
    is not [None] in the record that a cycle loads, and the cycle (lines
    75-161) ends without an exception, then exactly one of them is not [None]
    in the record that is dumped. *)
Theorem exactly_one_after_cycle env td td' :
  exactly_one td = true →
  cycle env td = (Ok tt, td') →
  exactly_one td' = true.
Proof.
  unfold cycle, reconcile.
  intros Hone ([] & td1 & Hnorm & ([] & td2 & Hclose & Hspawn)%bind_ok)%bind_ok.
  destruct (normalize_needs_dict _ _ Hnorm) as [m ->].
  apply normalize_current_next in Hnorm
    as (m1 & c & c' & n & n' & -> & Hc & Hc' & Hrc & Hn & Hn' & Hrn).
  rewrite (exactly_one_dict _ _ _ Hc Hn) in Hone.
  unfold is_not_None in Hone.
  rewrite <-(repaired_current_None _ _ Hrc), <-(repaired_next_None _ _ Hrn) in Hone.
  clear Hc Hn Hrc Hrn.
  assert (∀ m2 : gmap string value,
    spawn_if_due env (VDict m2) = (Ok tt, td') →
    (∃ current next, m2 !! "current" = Some current ∧ m2 !! "next" = Some next ∧
       xorb (is_not_None current) (is_not_None next) = true) →
    exactly_one td' = true) as Hend.
  { intros m2 H (current & next & Hcur & Hnext & Hx).
    apply spawn_if_due_ok in H
      as [[_ ->]|(d & Hd & [[_ ->]|(_ & tg & cl & ti & no & task & _ & _ & _ & _ & _ & ->)])].
    - by rewrite (exactly_one_dict _ _ _ Hcur Hnext).
    - by rewrite (exactly_one_dict _ _ _ Hcur Hnext).
    - unfold spawned. erewrite exactly_one_dict; [|by look..]. done. }
  apply close_instance_ok in Hclose as [[Hcur ->]|(cd & id & Hcur & Hid & Hcase)].
  { apply (Hend _ Hspawn). exists c', n'. by rewrite Hc' in Hcur. }
  rewrite Hcur in Hc'. injection Hc' as <-.
  destruct Hcase as [(T & _ & ->)|[(T & _ & Hres)|(_ & Hres)]].
  - apply (Hend _ Hspawn). by exists (VDict cd), n'.
  - apply reschedule_ok in Hres
      as (? & ? & ? & ? & ? & ? & ? & d & _ & _ & _ & _ & _ & _ & _ & _ & ->).
    apply (Hend _ Hspawn). exists VNone, (VDatetime d). unfold closed. by look.
  - apply reschedule_ok in Hres
      as (? & ? & ? & ? & ? & ? & ? & d & _ & _ & _ & _ & _ & _ & _ & _ & ->).
    apply (Hend _ Hspawn). exists VNone, (VDatetime d). unfold closed. by look.
Qed.


(** ** The window of a reschedule *)

Lemma policy_dict slot m min max :
  policy slot (VDict m) = Ok (min, max) ↔
  ∃ rp interval,
    m !! "repeat" = Some (VDict rp) ∧ rp !! slot = Some (VDict interval) ∧
    interval !! "min" = Some min ∧ interval !! "max" = Some max.
Proof.
  unfold policy. split.
  - intros H. cases_hyp H. by eexists _, _.
  - intros (rp & interval & Hrp & Hi & Hmin & Hmax). by run.
Qed.

Lemma policy_closed slot previous m :
  policy slot (VDict (closed previous m)) = policy slot (VDict m).
Proof. unfold policy, closed. by run. Qed.

Lemma reschedule_delay slot anchor e m td' mn mx :
  policy slot (VDict m) = Ok (VInt mn, VInt mx) →
  reschedule slot anchor e (VDict m) = (Ok tt, td') →
  ∃ a s,
    anchor = VDatetime a ∧
    mn * SECONDS_PER_DAY ≤ s ≤ mx * SECONDS_PER_DAY ∧
    0 ≤ wall a + s * MICROSECONDS < MAX_WALL ∧
    td' = VDict (<["next" := VDatetime {| wall := wall a + s * MICROSECONDS;
                                           tzinfo := tzinfo a |}]> m).
Proof.
  intros (rp & interval & Hrp & Hi & Hmin & Hmax)%policy_dict
    (rp' & interval' & mn' & mx' & a & s & delta & n & Hrp' & Hi' & Hmin' & Hmax'
     & -> & Hs%randint_range & ->%timedelta_ok & Hn & ->)%reschedule_ok.
  rewrite Hrp in Hrp'. injection Hrp' as <-.
  rewrite Hi in Hi'. injection Hi' as <-.
  rewrite Hmin in Hmin'. injection Hmin' as <-.
  rewrite Hmax in Hmax'. injection Hmax' as <-.
  exists a, s. split; [done|]. split; [done|].
  unfold datetime_add in Hn. cbv zeta in Hn.
  destruct (_ && _) eqn:Hr in Hn; [|done]. injection Hn as <-.
  split; [|done]. apply andb_true_iff in Hr as [?%Z.leb_le ?%Z.ltb_lt]. lia.
Qed.

Lemma reschedule_window slot anchor e m td' mn mx :
  policy slot (VDict m) = Ok (VInt mn, VInt mx) →
  reschedule slot anchor e (VDict m) = (Ok tt, td') →
  ∃ a n,
    anchor = VDatetime a ∧ td' = VDict (<["next" := VDatetime n]> m) ∧
    in_window a n mn mx.
Proof.
  intros Hp (a & s & -> & Hs & _ & ->)%(reschedule_delay _ _ _ _ _ _ _ Hp).
  eexists a, _. split; [done|]. split; [done|].
  unfold in_window, MICROSECONDS; cbn [wall tzinfo]. split; [done|]. lia.
Qed.

(** C3.  Whenever the closing of a task computes a reschedule, for a
    completed task with the completion time as anchor and the slot
    [on completion], or for a task that is gone with the time of the
    observation as anchor and the slot [on deletion], the new [next] lies
    between the anchor plus [min] days and the anchor plus [max] days, bounds
    included, whatever the random generator draws.  The interval need not
    even be valid: an empty one makes [randint] raise, so that no reschedule
    is computed. *)
Theorem reschedule_within_interval env m c id slot anchor mn mx td' :
  m !! "current" = Some (VDict c) → c !! "id" = Some id →
  transition env id = Some (slot, anchor) →
  policy slot (VDict m) = Ok (VInt mn, VInt mx) →
  close_instance env (VDict m) = (Ok tt, td') →
  ∃ a n,
    anchor = VDatetime a ∧ subscript "next" td' = Ok (VDatetime n) ∧
    in_window a n mn mx.
Proof.
  intros Hc Hid Htr Hp
    [[Hc' _]|(c' & id' & Hc' & Hid' & Hcase)]%close_instance_ok;
    rewrite Hc in Hc'; [done|]. injection Hc' as <-.
  rewrite Hid in Hid'. injection Hid' as <-.
  unfold transition in Htr.
  destruct Hcase as [(T & Hf & _)|[(T & Hf & Hres)|(Hf & Hres)]];
    rewrite Hf in Htr; [done| |]; cbn in Htr; injection Htr as <- <-.
  - rewrite <-(policy_closed _ (<["completed" := T]> c)) in Hp.
    destruct (reschedule_window _ _ _ _ _ _ _ Hp Hres) as (a & n & -> & -> & Hw).
    exists a, n. by run.
  - rewrite <-(policy_closed _ c) in Hp.
    destruct (reschedule_window _ _ _ _ _ _ _ Hp Hres) as (a & n & [= <-] & -> & Hw).
    eexists _, n. by run.
Qed.

(** ** Closing a completed or deleted task *)

Lemma transition_closes env m c id slot anchor td1 :
  m !! "current" = Some (VDict c) → c !! "id" = Some id →
  transition env id = Some (slot, anchor) →
  close_instance env (VDict m) = (Ok tt, td1) →
  ∃ previous,
    reschedule slot anchor (entropy env) (VDict (closed previous m)) = (Ok tt, td1) ∧
    (previous = c ∨ previous = <["completed" := anchor]> c).
Proof.
  intros Hc Hid Htr [[Hc' _]|(c' & id' & Hc' & Hid' & Hcase)]%close_instance_ok;
    rewrite Hc in Hc'; [done|]. injection Hc' as <-.
  rewrite Hid in Hid'. injection Hid' as <-.
  unfold transition in Htr.
  destruct Hcase as [(T & Hf & _)|[(T & Hf & Hres)|(Hf & Hres)]];
    rewrite Hf in Htr; [done| |]; cbn in Htr; injection Htr as <- <-; eauto.
Qed.

Lemma checklist_to_submit_entry m m' :
  m' !! "checklist" = m !! "checklist" →
  (checklist_to_submit (VDict m')).1 = (checklist_to_submit (VDict m)).1.
Proof.
  intros H. unfold checklist_to_submit. run.
  destruct (m !! "checklist") as [checklist|] eqn:E; [|done].
  destruct (truthy checklist); [|done]. run.
  by destruct (iterate checklist).
Qed.

(** C2, amended.  A record with a current task that the service reports
    completed at [T], under the policy [{min: 1, max: 3}], goes through lines
    123-161 as follows, when they end without an exception: [previous] is the
    old [current] with [completed] set to [T]; the date [n] that is computed
    lies between [T] plus 86400 seconds and [T] plus 259200 seconds; and
    either [n] is after the clock reading of line 149, [current] is [None]
    and [next] is [n], or [n] is due and a new task is created in the same
    cycle: the tag lookup has given the recurring tag, [Todo.new] has been
    called with the title and the notes of the record, that tag and the
    items of its checklist, all unchecked, [current] holds the id and the
    creation time of the task that this call returned, and [next] is
    [None]. *)
Theorem completed_instance_cycle env m c id T td' :
  m !! "current" = Some (VDict c) → c !! "id" = Some id →
  todo_fetch env id = Fetched true (VDatetime T) →
  policy "on completion" (VDict m) = Ok (VInt 1, VInt 3) →
  reconcile env (VDict m) = (Ok tt, td') →
  ∃ n,
    tzinfo n = tzinfo T ∧
    wall T + 86400 * MICROSECONDS ≤ wall n ≤ wall T + 259200 * MICROSECONDS ∧
    subscript "previous" td' = Ok (VDict (<["completed" := VDatetime T]> c)) ∧
    ((datetime_ge (datetime_now (now_due env)) n = Ok false ∧
      subscript "current" td' = Ok VNone ∧
      subscript "next" td' = Ok (VDatetime n)) ∨
     (datetime_ge (datetime_now (now_due env)) n = Ok true ∧
      (∃ recurring_tag checklist title notes task,
         get_recurring_tag env = Ok recurring_tag ∧
         (checklist_to_submit (VDict m)).1 = Ok checklist ∧
         m !! "title" = Some title ∧ m !! "notes" = Some notes ∧
         todo_new env title notes recurring_tag checklist = Ok task ∧
         subscript "current" td' =
           Ok (VDict (<["id" := task.1]> (<["created" := task.2]> ∅)))) ∧
      subscript "next" td' = Ok VNone)).
Proof.
  intros Hc Hid Hf Hp. unfold reconcile.
  intros ([] & td1 & Hclose & Hspawn)%bind_ok.
  apply close_instance_ok in Hclose as [[Hc' _]|(c' & id' & Hc' & Hid' & Hcase)];
    rewrite Hc in Hc'; [done|]. injection Hc' as <-.
  rewrite Hid in Hid'. injection Hid' as <-. rewrite Hf in Hcase.
  destruct Hcase as [(? & [=] & _)|[(? & [= <-] & Hres)|([=] & _)]].
  rewrite <-(policy_closed _ (<["completed" := VDatetime T]> c)) in Hp.
  destruct (reschedule_window _ _ _ _ _ _ _ Hp Hres)
    as (a & n & [= <-] & -> & Hz & Hlo & Hhi).
  exists n. split; [done|].
  split; [unfold SECONDS_PER_DAY, MICROSECONDS in *; lia|].
  apply spawn_if_due_ok in Hspawn as [[Hn _]|(n' & Hn & Hcase)];
    unfold closed in Hn; rewrite lookup_insert_eq in Hn; [done|].
  injection Hn as <-.
  destruct Hcase as [[Hge ->]|(Hge & recurring_tag & checklist & title & notes
                               & task & Htag & Hcl & Htitle & Hnotes & Hnew & ->)].
  - unfold closed. run. split; [done|]. by left.
  - rewrite (checklist_to_submit_entry m) in Hcl by (unfold closed; by look).
    unfold closed in Htitle, Hnotes. unfold closed, spawned. run.
    split; [done|]. right. split; [done|]. split; [|done].
    by exists recurring_tag, checklist, title, notes, task.
Qed.

(** C10.  A record with a current task that is completed or gone, whose
    freshly computed [next] is not after the clock reading of line 149, is
    given a new task by the same cycle: when the tag lookup and [Todo.new]
    succeed, lines 123-161 end with [current] holding the id and the creation
    time of the new task and with [next] set to [None]. *)
Theorem respawn_in_same_cycle env m c id slot anchor td1 n
    recurring_tag checklist title notes task :
  m !! "current" = Some (VDict c) → c !! "id" = Some id →
  transition env id = Some (slot, anchor) →
  close_instance env (VDict m) = (Ok tt, td1) →
  subscript "next" td1 = Ok (VDatetime n) →
  datetime_ge (datetime_now (now_due env)) n = Ok true →
  get_recurring_tag env = Ok recurring_tag →
  (checklist_to_submit (VDict m)).1 = Ok checklist →
  m !! "title" = Some title → m !! "notes" = Some notes →
  todo_new env title notes recurring_tag checklist = Ok task →
  ∃ td',
    reconcile env (VDict m) = (Ok tt, td') ∧
    subscript "current" td' =
      Ok (VDict (<["id" := task.1]> (<["created" := task.2]> ∅))) ∧
    subscript "next" td' = Ok VNone.
Proof.
  intros Hc Hid Htr Hclose Hn Hge Htag Hcl Htitle Hnotes Hnew.
  destruct (transition_closes _ _ _ _ _ _ _ Hc Hid Htr Hclose)
    as (previous & Hres & _).
  apply reschedule_ok in Hres
    as (? & ? & ? & ? & ? & ? & ? & n' & _ & _ & _ & _ & _ & _ & _ & _ & ->).
  revert Hn. run. intros [= ->].
  eexists. split.
  - unfold reconcile. apply bind_ok. eexists tt, _. split; [done|].
    eapply spawn_if_due_run; try done.
    + by look.
    + rewrite <-Hcl. apply checklist_to_submit_entry. unfold closed. by look.
    + unfold closed. by look.
    + unfold closed. by look.
  - unfold spawned. by run.
Qed.

(** ** The delay is a number of seconds *)

(** C4, amended.  The delay of a reschedule is a whole number of seconds of
    the closed range from [min * 86400] to [max * 86400]: every reschedule
    moves the anchor by such a number of seconds, and every number of seconds
    of that range (that the date arithmetic can hold) is the delay of some
    draw.  It need not be a whole number of days. *)
Theorem delay_in_whole_seconds slot a m mn mx :
  policy slot (VDict m) = Ok (VInt mn, VInt mx) →
  (∀ e td',
     reschedule slot (VDatetime a) e (VDict m) = (Ok tt, td') →
     ∃ s, mn * SECONDS_PER_DAY ≤ s ≤ mx * SECONDS_PER_DAY ∧
          td' = VDict (<["next" := VDatetime {| wall := wall a + s * MICROSECONDS;
                                                 tzinfo := tzinfo a |}]> m)) ∧
  (∀ s delta n,
     mn * SECONDS_PER_DAY ≤ s ≤ mx * SECONDS_PER_DAY →
     timedelta s = Ok delta → datetime_add a delta = Ok n →
     ∃ e, reschedule slot (VDatetime a) e (VDict m) =
          (Ok tt, VDict (<["next" := VDatetime n]> m))).
Proof.
  intros Hp. split.
  - intros e td' (a' & s & [= <-] & Hs & _ & ->)%(reschedule_delay _ _ _ _ _ _ _ Hp).
    by exists s.
  - intros s delta n Hs Hdelta Hn.
    apply policy_dict in Hp as (rp & interval & Hrp & Hi & Hmin & Hmax).
    exists (s - mn * SECONDS_PER_DAY).
    eapply reschedule_run; try done. by apply randint_onto.
Qed.

(** ** The write through a temporary file, and the loop over the files *)


Lemma mkstemp_ok (d : directory) names temp :
  mkstemp d names = Ok temp →
  d !! temp = None ∧ ∃ name, name ∈ names ∧ temp = temp_path name.
Proof.
  induction names as [|name names IH]; [done|]. cbn [mkstemp].
  case_bool_decide as Hex.
  - intros (? & name' & ? & ?)%IH. split; [done|].
    exists name'. split; [by right|done].
  - intros [= <-]. split; [by apply eq_None_not_Some|].
    exists name. split; [by left|done].
Qed.

Lemma persist_steps (d : directory) temp file_path text old :
  d !! file_path = Some old → d !! temp = None →
  apply_ops (take 1 (persist_ops temp file_path text)) d =
    (Ok tt, <[temp := ""]> d) ∧
  apply_ops (take 2 (persist_ops temp file_path text)) d =
    (Ok tt, <[temp := text]> d) ∧
  apply_ops (persist_ops temp file_path text) d =
    (Ok tt, <[file_path := text]> d).
Proof.
  intros Hf Ht. unfold persist_ops. cbn [take apply_ops].
  unfold mbind, ST_bind, mret, ST_ret, apply_op.
  rewrite insert_insert_eq, lookup_insert_eq, delete_insert_eq.
  by rewrite delete_id.
Qed.

Section Script_properties.
Variable safe_load : string → result value.
Variable safe_dump : value → string.

Lemma file_ops_ok d filename env ops :
  file_ops safe_load safe_dump d filename env = Ok ops →
  ∃ text td td' temp,
    d !! filename = Some text ∧ safe_load text = Ok td ∧
    cycle env td = (Ok tt, td') ∧ mkstemp d (temp_names env) = Ok temp ∧
    ops = persist_ops temp filename (safe_dump td').
Proof.
  unfold file_ops. intros H.
  destruct (d !! filename) as [text|]; [|done].
  destruct (safe_load text) as [td|] eqn:Hload; [|done].
  unfold mbind, result_bind in H.
  destruct (cycle env td) as [[[]|] td'] eqn:Hcycle; [|done].
  destruct (mkstemp d (temp_names env)) as [temp|] eqn:Htemp; [|done].
  injection H as <-. by exists text, td, td', temp.
Qed.


Lemma process_file_raise filename env d e d' :
  process_file safe_load safe_dump filename env d = (Raise e, d') →
  d' = d ∧ file_ops safe_load safe_dump d filename env = Raise e.
Proof.
  unfold process_file.
  destruct (file_ops _ _ d filename env) as [ops|] eqn:Hops;
    [|by intros [= <- <-]].
  destruct (file_ops_ok _ _ _ _ Hops)
    as (text & td & td' & temp & Hf & _ & _ & [Ht _]%mkstemp_ok & ->).
  destruct (persist_steps d temp filename (safe_dump td') text)
    as (_ & _ & ->); done.
Qed.

(** C5, amended.  A failure in the cycle of one file ends the whole run
  with the exception of that cycle: the files listed before it have been
  processed, the directory is left as they left it, and neither the failing
  file nor any file listed after it is processed. *)
Theorem run_stops_at_first_failure listing filename listing' envs d d1 e d2 :
  run safe_load safe_dump listing envs d = (Ok tt, d1) →
  startswith_dot filename = false →
  process_file safe_load safe_dump filename (envs filename) d1 = (Raise e, d2) →
  d2 = d1 ∧
  run safe_load safe_dump (listing ++ filename :: listing') envs d =
    (Raise e, d1).
Proof.
  intros Hrun Hvisible Hfail.
  destruct (process_file_raise _ _ _ _ _ Hfail) as [-> _]. split; [done|].
  revert d Hrun. induction listing as [|filename' listing IH]; intros d.
  - intros [= ->]. cbn [app run]. rewrite Hvisible.
    unfold mbind, ST_bind. by rewrite Hfail.
  - cbn [app run]. destruct (startswith_dot filename'); [apply IH|].
    intros ([] & d' & Hfile & Hrest)%bind_ok.
    unfold mbind, ST_bind. rewrite Hfile. by apply IH.
Qed.
End Script_properties.

(** ** A record with neither a task nor a date *)

Section Unscheduled_record.
Variable safe_load : string → result value.
Variable safe_dump : value → string.

(** C9, amended.  A record in which both [current] and [next] are [None] is
    not an error.  Whatever the service, the clock and the generator would
    answer, lines 123-161 leave such a record as it is and end without an
    exception, so that the cycle is the normaliser alone; and when a file
    holds such a record, the normaliser accepts it and [mkstemp] finds a
    name, the script writes the dump of the normalised record through the
    temporary file and the file holds it when the cycle of that file ends,
    without an exception and with every other file as it was. *)
Theorem both_null_passes env m :
  m !! "current" = Some VNone → m !! "next" = Some VNone →
  reconcile env (VDict m) = (Ok tt, VDict m) ∧
  cycle env (VDict m) = normalize (VDict m) ∧
  ∀ (d : directory) filename text td1 temp,
    d !! filename = Some text → safe_load text = Ok (VDict m) →
    normalize (VDict m) = (Ok tt, td1) →
    mkstemp d (temp_names env) = Ok temp →
    file_ops safe_load safe_dump d filename env =
      Ok [CreateFile temp; WriteFile temp (safe_dump td1);
          RenameFile temp filename] ∧
    process_file safe_load safe_dump filename env d =
      (Ok tt, <[filename := safe_dump td1]> d).
Proof.
  intros Hc Hn.
  assert (∀ m' : gmap string value,
    m' !! "current" = Some VNone → m' !! "next" = Some VNone →
    reconcile env (VDict m') = (Ok tt, VDict m')) as Hrec.
  { intros m' Hc' Hn'. unfold reconcile, close_instance, spawn_if_due. by run. }
  assert (cycle env (VDict m) = normalize (VDict m)) as Hcycle.
  { unfold cycle, mbind, ST_bind.
    destruct (normalize (VDict m)) as [[[]|e] td1] eqn:Hnorm; [|done].
    apply normalize_current_next in Hnorm
      as (m1 & c & c' & n & n' & -> & Hc0 & Hc' & Hrc & Hn0 & Hn' & Hrn).
    rewrite Hc in Hc0. injection Hc0 as <-. rewrite Hn in Hn0. injection Hn0 as <-.
    injection Hrc as <-. injection Hrn as <-. by apply Hrec. }
  split; [by apply Hrec|]. split; [done|].
  intros d filename text td1 temp Hfile Hload Hnorm Htemp.
  assert (file_ops safe_load safe_dump d filename env =
          Ok (persist_ops temp filename (safe_dump td1))) as Hops.
  { unfold file_ops. rewrite Hfile, Hload. unfold mbind, result_bind.
    by rewrite Hcycle, Hnorm, Htemp. }
  split; [done|].
  unfold process_file. rewrite Hops.
  apply mkstemp_ok in Htemp as [Hfresh _].
  by destruct (persist_steps d temp filename (safe_dump td1) text) as (_ & _ & ->).
Qed.
End Unscheduled_record.

(** ** The normaliser, twice *)

(** C8.  The repairs of lines 75-121 are idempotent: running them twice
    gives what running them once gives, and on a record that they have
    produced they succeed and change nothing. *)
Theorem normalize_idempotent td :
  (normalize;; normalize) td = normalize td ∧
  ∀ td', normalize td = (Ok tt, td') → normalize td' = (Ok tt, td').
Proof.
  split; [|intros td'; apply normalize_fixed].
  unfold mbind, ST_bind.
  destruct (normalize td) as [[[]|e] td'] eqn:H; [|done].
  by rewrite (normalize_fixed _ _ H).
Qed.

Lemma normalize_idempotent_witness :
  let td' := (normalize (VDict legacy_map)).2 in
  normalize (VDict legacy_map) = (Ok tt, td') ∧ normalize td' = (Ok tt, td').
Proof.
  split; [vm_compute; reflexivity|].
  apply (proj2 (normalize_idempotent (VDict legacy_map))).
  vm_compute. reflexivity.
Defined.

(** A dict whose [previous] has a creation time and no completion time
    cannot be normalised: line 88 raises [KeyError]. *)
Lemma normalize_needs_completed m p d :
  m !! "previous" = Some (VDict p) → p !! "created" = Some (VDatetime d) →
  p !! "completed" = None →
  is_Ok (normalize (VDict m)).1 = false.
Proof.
  intros Hp Hcreated Hcompleted.
  destruct (normalize (VDict m)) as [[[]|e] td'] eqn:H; [|done].
  apply normalize_steps in H
    as (m1 & m2 & m3 & m4 & m5 & m6 & m7 & -> & H1 & H2 & H3 & _).
  destruct (local_touches _ _ _ fix_current_local _ _ H1) as (? & [= <-] & T1).
  destruct (local_touches _ _ _ fix_next_local _ _ H2) as (? & [= <-] & T2).
  apply fix_previous_updates in H3 as (p0 & p' & Hp0 & Hrp & _).
  rewrite T2, T1, Hp in Hp0 by (by apply not_elem_of_one).
  injection Hp0 as <-. unfold repaired_previous in Hrp.
  by rewrite Hcreated, Hcompleted in Hrp.
Qed.

(** ** The claims on sample records *)

Lemma exactly_one_after_cycle_witness :
  exactly_one (cycle (env_completed_long_ago 0) (VDict (live_map (interval 1 3)))).2
  = true.
Proof.
  apply (exactly_one_after_cycle (env_completed_long_ago 0)
           (VDict (live_map (interval 1 3)))); vm_compute; reflexivity.
Defined.

(** The task of the sample record was completed fifteen days before the
    run: the cycle ends with a new task and no date. *)
Lemma completed_long_ago_respawns :
  let env := env_completed_long_ago 0 in
  let td' := (reconcile env (VDict (live_map (interval 1 3)))).2 in
  todo_fetch env (VStr "5f2c") = Fetched true (VDatetime (utc_time 735605 0)) ∧
  policy "on completion" (VDict (live_map (interval 1 3))) = Ok (VInt 1, VInt 3) ∧
  (reconcile env (VDict (live_map (interval 1 3)))).1 = Ok tt ∧
  subscript "current" td' ≠ Ok VNone ∧
  subscript "next" td' = Ok VNone.
Proof. vm_compute. by repeat split. Qed.

Lemma completed_instance_cycle_witness :
  let env := env_completed_long_ago 0 in
  let td' := (reconcile env (VDict (live_map (interval 1 3)))).2 in
  ∃ n,
    tzinfo n = tzinfo (utc_time 735605 0) ∧
    wall (utc_time 735605 0) + 86400 * MICROSECONDS ≤ wall n
      ≤ wall (utc_time 735605 0) + 259200 * MICROSECONDS ∧
    subscript "previous" td' =
      Ok (VDict (<["completed" := VDatetime (utc_time 735605 0)]> sample_instance)) ∧
    ((datetime_ge (datetime_now (now_due env)) n = Ok false ∧
      subscript "current" td' = Ok VNone ∧
      subscript "next" td' = Ok (VDatetime n)) ∨
     (datetime_ge (datetime_now (now_due env)) n = Ok true ∧
      (∃ recurring_tag checklist title notes task,
         get_recurring_tag env = Ok recurring_tag ∧
         (checklist_to_submit (VDict (live_map (interval 1 3)))).1 = Ok checklist ∧
         live_map (interval 1 3) !! "title" = Some title ∧
         live_map (interval 1 3) !! "notes" = Some notes ∧
         todo_new env title notes recurring_tag checklist = Ok task ∧
         subscript "current" td' =
           Ok (VDict (<["id" := task.1]> (<["created" := task.2]> ∅)))) ∧
      subscript "next" td' = Ok VNone)).
Proof.
  apply (completed_instance_cycle (env_completed_long_ago 0)
           (live_map (interval 1 3)) sample_instance (VStr "5f2c")
           (utc_time 735605 0));
    vm_compute; reflexivity.
Defined.

Lemma reschedule_within_interval_witness :
  ∃ a n,
    VDatetime (utc_time 735605 0) = VDatetime a ∧
    subscript "next"
      (close_instance (env_completed_today 1) (VDict (live_map (interval 1 3)))).2
    = Ok (VDatetime n) ∧
    in_window a n 1 3.
Proof.
  apply (reschedule_within_interval (env_completed_today 1)
           (live_map (interval 1 3)) sample_instance (VStr "5f2c")
           "on completion");
    vm_compute; reflexivity.
Defined.

(** With the entropy 1 the sample record is rescheduled a day and a second
    after the completion. *)
Lemma delay_of_a_day_and_a_second :
  let env := env_completed_today 1 in
  let td' := (close_instance env (VDict (live_map (interval 1 3)))).2 in
  (close_instance env (VDict (live_map (interval 1 3)))).1 = Ok tt ∧
  subscript "next" td' = Ok (VDatetime (utc_time 735606 1)) ∧
  wall (utc_time 735606 1) - wall (utc_time 735605 0) = 86401 * MICROSECONDS ∧
  86401 `mod` SECONDS_PER_DAY ≠ 0.
Proof. vm_compute. by repeat split. Qed.

Lemma delay_in_whole_seconds_witness :
  ∃ e, reschedule "on completion" (VDatetime (utc_time 735605 0)) e
         (VDict (live_map (interval 1 3))) =
       (Ok tt, VDict (<["next" := VDatetime (utc_time 735606 1)]>
                        (live_map (interval 1 3)))).
Proof.
  apply (proj2 (delay_in_whole_seconds "on completion" (utc_time 735605 0)
                  (live_map (interval 1 3)) 1 3 eq_refl)
           86401 (86401 * MICROSECONDS));
    [unfold SECONDS_PER_DAY; lia|vm_compute; reflexivity..].
Defined.

(** The service answers 500 for the task of [a.yaml]: the run ends there,
    and [b.yaml], which is due and which a run of its own updates, is left as
    it was. *)
Lemma failure_stops_the_run :
  run table_load table_dump ["a.yaml"; "b.yaml"; "c.yaml"] sample_envs
      sample_directory
  = (Raise (HTTPError 500), sample_directory) ∧
  run table_load table_dump ["b.yaml"] sample_envs sample_directory
  = (Ok tt, <["b.yaml" := "updated"]> sample_directory).
Proof. vm_compute. by split. Qed.

Lemma run_stops_at_first_failure_witness :
  run table_load table_dump (["b.yaml"] ++ "a.yaml" :: ["c.yaml"]) sample_envs
      sample_directory
  = (Raise (HTTPError 500), <["b.yaml" := "updated"]> sample_directory).
Proof.
  apply (run_stops_at_first_failure table_load table_dump ["b.yaml"] "a.yaml"
           ["c.yaml"] sample_envs sample_directory
           (<["b.yaml" := "updated"]> sample_directory) (HTTPError 500)
           (<["b.yaml" := "updated"]> sample_directory));
    vm_compute; reflexivity.
Defined.


(** A record with neither a task nor a date goes through the cycle and is
    written back. *)
Lemma unscheduled_record_is_written :
  cycle (sample_envs "c.yaml") (VDict unscheduled_map)
  = (Ok tt, VDict unscheduled_map) ∧
  file_ops table_load table_dump sample_directory "c.yaml" (sample_envs "c.yaml")
  = Ok [CreateFile ".tmpk3x9q2.tmp"; WriteFile ".tmpk3x9q2.tmp" "updated";
        RenameFile ".tmpk3x9q2.tmp" "c.yaml"].
Proof. vm_compute. by split. Qed.

Lemma both_null_passes_witness :
  file_ops table_load table_dump sample_directory "c.yaml" env_unavailable =
    Ok [CreateFile ".tmpk3x9q2.tmp"; WriteFile ".tmpk3x9q2.tmp" "updated";
        RenameFile ".tmpk3x9q2.tmp" "c.yaml"] ∧
  process_file table_load table_dump "c.yaml" env_unavailable sample_directory =
    (Ok tt, <["c.yaml" := "updated"]> sample_directory).
Proof.
  apply (proj2 (proj2 (both_null_passes table_load table_dump env_unavailable
                         unscheduled_map eq_refl eq_refl))
           sample_directory "c.yaml" "unscheduled" (VDict unscheduled_map)
           ".tmpk3x9q2.tmp");
    vm_compute; reflexivity.
Defined.

(** The task of the sample record is gone: the cycle leaves a [previous]
    without a completion time, which the normaliser of the next run does not
    accept. *)
Lemma gone_leaves_no_completion_time :
  let td' := (reconcile env_gone (VDict (live_map (interval 1 3)))).2 in
  (reconcile env_gone (VDict (live_map (interval 1 3)))).1 = Ok tt ∧
  subscript "previous" td' = Ok (VDict sample_instance) ∧
  sample_instance !! "completed" = None ∧
  (normalize td').1 = Raise KeyError.
Proof. vm_compute. by repeat split. Qed.

Lemma respawn_in_same_cycle_witness :
  ∃ td',
    reconcile env_gone (VDict (live_map (interval 0 0))) = (Ok tt, td') ∧
    subscript "current" td' =
      Ok (VDict (<["id" := VStr "77d0"]>
                (<["created" := VDatetime (utc_time 735620 5)]> ∅))) ∧
    subscript "next" td' = Ok VNone.
Proof.
  apply (respawn_in_same_cycle env_gone (live_map (interval 0 0)) sample_instance
           (VStr "5f2c") "on deletion"
           (VDatetime (datetime_now (summer_noon 735605)))
           (close_instance env_gone (VDict (live_map (interval 0 0)))).2
           (datetime_now (summer_noon 735605))
           (mk_tag RECURRING_TAG_NAME "t-2")
           (Some [(VStr "kitchen", false); (VStr "balcony", false)])
           (VStr "Water the plants") VNone
           (VStr "77d0", VDatetime (utc_time 735620 5)));
    vm_compute; reflexivity.
Defined.

(** * Further properties of the script *)

(** ** What the normaliser makes of a record *)

(** A successful normalisation, entry by entry. *)
Lemma normalize_result m td' :
  normalize (VDict m) = (Ok tt, td') →
  ∃ m' c c' n n' p p' r r',
    td' = VDict m' ∧
    m !! "current" = Some c ∧ repaired_current c = Ok c' ∧
    m' !! "current" = Some c' ∧
    m !! "next" = Some n ∧ repaired_next n = Ok n' ∧ m' !! "next" = Some n' ∧
    m !! "previous" = Some p ∧ repaired_previous p = Ok p' ∧
    m' !! "previous" = Some p' ∧
    m !! "repeat" = Some r ∧ repaired_repeat r = Ok r' ∧
    m' !! "repeat" = Some r' ∧
    m' !! "notes" = Some (default VNone (m !! "notes")) ∧
    m' !! "text" = None ∧
    m' !! "title" = (if m !! "text" is Some text then Some text
                     else m !! "title") ∧
    m' !! "checklist" = Some (default (VTuple []) (m !! "checklist")) ∧
    ∀ k, k ∉ ["current"; "next"; "previous"; "repeat"; "notes"; "text";
              "title"; "checklist"] → m' !! k = m !! k.
Proof.
  intros (m1 & m2 & m3 & m4 & m5 & m6 & m7 & -> & H1 & H2 & H3 & H4 & H5 & H6 & H7)
    %normalize_steps.
  apply fix_current_updates in H1 as (c & c' & Hc & Hc' & [= ->]).
  apply fix_next_updates in H2 as (n & n' & Hn & Hn' & [= ->]).
  apply fix_previous_updates in H3 as (p & p' & Hp & Hp' & [= ->]).
  rewrite default_notes_dict in H4. injection H4 as <-.
  rewrite rename_text_dict in H5. injection H5 as <-.
  rewrite default_checklist_dict in H6. injection H6 as <-.
  apply migrate_repeat_updates in H7 as (r & r' & Hr & Hr' & [= ->]).
  eexists _, c, c', n, n', p, p', r, r'. split; [reflexivity|].
  revert Hr. look.
  destruct (m !! "notes") as [notes|] eqn:Hnotes; look;
    destruct (m !! "text") as [text|] eqn:Htext; look;
    destruct (m !! "checklist") as [checklist|] eqn:Hchecklist; look;
    intros Hr; rewrite ?Hnotes, ?Htext, ?Hchecklist; cbn [default];
    repeat (split; [done|]);
    intros k Hk; rewrite !not_elem_of_cons in Hk;
    destruct Hk as (? & ? & ? & ? & ? & ? & ? & ? & _);
    by repeat first [rewrite lookup_insert_ne by congruence
                    |rewrite lookup_delete_ne by congruence].
Qed.

(** X1.  Lines 118-121: in a record that is normalised, a repeat policy with
    a [min] key has a [max] key too and is replaced by the policy for
    completed tasks with that [min] and [max], with no policy for deleted
    tasks and nothing else; a policy without a [min] key is kept as it
    is. *)
Theorem flat_policy_is_migrated m r td' :
  m !! "repeat" = Some (VDict r) →
  normalize (VDict m) = (Ok tt, td') →
  match r !! "min" with
  | Some min =>
      ∃ max,
        r !! "max" = Some max ∧
        subscript "repeat" td' =
          Ok (VDict (<["on completion" := VDict (<["min" := min]> (<["max" := max]> ∅))]>
                    (<["on deletion" := VNone]> ∅)))
  | None => subscript "repeat" td' = Ok (VDict r)
  end.
Proof.
  intros Hr (m' & c & c' & n & n' & p & p' & r0 & r' & -> & _ & _ & _ & _ & _ & _
             & _ & _ & _ & Hr0 & Hr' & Hm' & _)%normalize_result.
  rewrite Hr in Hr0. injection Hr0 as <-.
  unfold repaired_repeat, contains, subscript in *. rewrite Hm'.
  destruct (r !! "min") as [min|] eqn:Hmin.
  - rewrite bool_decide_eq_true_2 in Hr' by eauto.
    destruct (r !! "max") as [max|]; [|done]. injection Hr' as <-. eauto.
  - rewrite bool_decide_eq_false_2 in Hr' by (by intros [??]). by injection Hr' as <-.
Qed.

Lemma flat_policy_is_migrated_witness :
  subscript "repeat" (normalize (VDict legacy_map)).2 =
  Ok (VDict (<["on completion" := interval 2 5]> (<["on deletion" := VNone]> ∅))).
Proof.
  destruct (flat_policy_is_migrated legacy_map
              (<["min" := VInt 2]> (<["max" := VInt 5]> ∅))
              (normalize (VDict legacy_map)).2) as (max & Hmax & Hrepeat);
    [vm_compute; reflexivity..|].
  injection Hmax as <-. exact Hrepeat.
Defined.

(** X2.  Lines 93-114: a record that is normalised has no [text] entry; its
    [title] is the old [text] when there was one, also when it had a [title]
    already, and the old [title] otherwise; its [notes] and [checklist] are
    the old ones, or [None] and the empty tuple when there were none. *)
Theorem text_becomes_title m td' :
  normalize (VDict m) = (Ok tt, td') →
  subscript "text" td' = Raise KeyError ∧
  subscript "title" td' =
    (if m !! "text" is Some text then Ok text else subscript "title" (VDict m)) ∧
  subscript "notes" td' = Ok (default VNone (m !! "notes")) ∧
  subscript "checklist" td' = Ok (default (VTuple []) (m !! "checklist")).
Proof.
  intros (m' & c & c' & n & n' & p & p' & r0 & r' & -> & _ & _ & _ & _ & _ & _
          & _ & _ & _ & _ & _ & _ & Hnotes & Htext & Htitle & Hchecklist & _)
    %normalize_result.
  unfold subscript. rewrite Hnotes, Htext, Htitle, Hchecklist.
  by destruct (m !! "text").
Qed.

Lemma text_becomes_title_witness :
  let td' := (normalize (VDict legacy_map)).2 in
  subscript "text" td' = Raise KeyError ∧
  subscript "title" td' = Ok (VStr "Water the plants") ∧
  subscript "notes" td' = Ok VNone ∧
  subscript "checklist" td' = Ok (VTuple []).
Proof.
  apply (text_becomes_title legacy_map (normalize (VDict legacy_map)).2).
  vm_compute. reflexivity.
Defined.

(** X3.  Lines 75-91: in a record that is normalised, the timestamps
    [next], [current.created], and [previous.created] with
    [previous.completed], keep their date and time fields and carry the UTC
    offset, whatever offset they carried before; the other entries of
    [current] and [previous] are kept. *)
Theorem timestamps_are_tagged_utc m td' :
  normalize (VDict m) = (Ok tt, td') →
  (∀ d, m !! "next" = Some (VDatetime d) →
        subscript "next" td' =
          Ok (VDatetime {| wall := wall d; tzinfo := Some 0 |})) ∧
  (∀ c d, m !! "current" = Some (VDict c) →
          c !! "created" = Some (VDatetime d) →
          subscript "current" td' =
            Ok (VDict (<["created" :=
                           VDatetime {| wall := wall d; tzinfo := Some 0 |}]> c))) ∧
  (∀ p d d', m !! "previous" = Some (VDict p) →
             p !! "created" = Some (VDatetime d) →
             p !! "completed" = Some (VDatetime d') →
             subscript "previous" td' =
               Ok (VDict (<["completed" :=
                              VDatetime {| wall := wall d'; tzinfo := Some 0 |}]>
                         (<["created" :=
                              VDatetime {| wall := wall d; tzinfo := Some 0 |}]> p)))).
Proof.
  intros (m' & c & c' & n & n' & p & p' & r0 & r' & -> & Hc & Hc' & Hmc & Hn & Hn'
          & Hmn & Hp & Hp' & Hmp & _)%normalize_result.
  unfold subscript. rewrite Hmc, Hmn, Hmp. repeat split.
  - intros d Hd. rewrite Hd in Hn. injection Hn as <-. by injection Hn' as <-.
  - intros c0 d Hc0 Hd. rewrite Hc0 in Hc. injection Hc as <-.
    unfold repaired_current in Hc'. rewrite Hd in Hc'. by injection Hc' as <-.
  - intros p0 d d' Hp0 Hd Hd'. rewrite Hp0 in Hp. injection Hp as <-.
    unfold repaired_previous in Hp'. rewrite Hd, Hd' in Hp'.
    by injection Hp' as <-.
Qed.

Lemma timestamps_are_tagged_utc_witness :
  subscript "current" (normalize (VDict legacy_map)).2 = Ok (VDict sample_instance).
Proof.
  destruct (timestamps_are_tagged_utc legacy_map (normalize (VDict legacy_map)).2)
    as (_ & Hcurrent & _); [vm_compute; reflexivity|].
  rewrite (Hcurrent
             (<["id" := VStr "5f2c"]>
                (<["created" := VDatetime {| wall := wall (utc_time 735600 0);
                                             tzinfo := None |}]> ∅))
             {| wall := wall (utc_time 735600 0); tzinfo := None |});
    vm_compute; reflexivity.
Defined.

(** X4.  Lines 75-121: the repairs succeed only on a mapping that has the
    entries [current], [next], [previous] and [repeat], in which [current]
    and [previous], when they are mappings, have a [created] entry, and in
    which a [previous] with a creation time has a [completed] entry; on any
    other document the script raises before it reaches the service. *)
Theorem normalize_needs_entries td td' :
  normalize td = (Ok tt, td') →
  ∃ m, td = VDict m ∧
       is_Some (m !! "current") ∧ is_Some (m !! "next") ∧
       is_Some (m !! "previous") ∧ is_Some (m !! "repeat") ∧
       (∀ c, m !! "current" = Some (VDict c) → is_Some (c !! "created")) ∧
       (∀ p, m !! "previous" = Some (VDict p) → is_Some (p !! "created")) ∧
       (∀ p d, m !! "previous" = Some (VDict p) →
               p !! "created" = Some (VDatetime d) →
               is_Some (p !! "completed")).
Proof.
  intros H. destruct (normalize_needs_dict _ _ H) as [m ->]. exists m.
  apply normalize_result in H
    as (m' & c & c' & n & n' & p & p' & r0 & r' & -> & Hc & Hc' & _ & Hn & _ & _
        & Hp & Hp' & _ & Hr & _).
  rewrite Hc, Hn, Hp, Hr. repeat split; eauto.
  - intros c0 [= ->]. unfold repaired_current in Hc'.
    by destruct (c0 !! "created").
  - intros p0 [= ->]. unfold repaired_previous in Hp'.
    by destruct (p0 !! "created").
  - intros p0 d0 [= ->] Hd. unfold repaired_previous in Hp'. rewrite Hd in Hp'.
    by destruct (p0 !! "completed").
Qed.

Lemma normalize_needs_entries_witness :
  ∃ m, VDict legacy_map = VDict m ∧
       is_Some (m !! "current") ∧ is_Some (m !! "next") ∧
       is_Some (m !! "previous") ∧ is_Some (m !! "repeat") ∧
       (∀ c, m !! "current" = Some (VDict c) → is_Some (c !! "created")) ∧
       (∀ p, m !! "previous" = Some (VDict p) → is_Some (p !! "created")) ∧
       (∀ p d, m !! "previous" = Some (VDict p) →
               p !! "created" = Some (VDatetime d) →
               is_Some (p !! "completed")).
Proof.
  apply (normalize_needs_entries (VDict legacy_map)
           (normalize (VDict legacy_map)).2).
  vm_compute. reflexivity.
Defined.

(** ** What the reconciliation does and does not do *)

(** X5.  Lines 125-129: when the fetch of the task raises anything but an
    [HTTPError] with status 404, the reconciliation raises that exception
    and the record is as it was: the failure is not taken for a deleted
    task, and nothing is rescheduled. *)
Theorem fetch_failure_is_propagated env m c id :
  m !! "current" = Some (VDict c) → c !! "id" = Some id →
  (todo_fetch env id = FetchError →
   reconcile env (VDict m) = (Raise RemoteError, VDict m)) ∧
  (∀ status_code,
     todo_fetch env id = FetchHTTPError status_code → status_code ≠ 404 →
     reconcile env (VDict m) = (Raise (HTTPError status_code), VDict m)).
Proof.
  intros Hc Hid. split.
  - intros Hfetch. unfold reconcile, close_instance. by run.
  - intros status_code Hfetch Hcode%Z.eqb_neq.
    unfold reconcile, close_instance. by run.
Qed.

Lemma fetch_failure_is_propagated_witness :
  reconcile env_unavailable (VDict (live_map (interval 1 3))) =
  (Raise (HTTPError 500), VDict (live_map (interval 1 3))).
Proof.
  apply (proj2 (fetch_failure_is_propagated env_unavailable
                  (live_map (interval 1 3)) sample_instance (VStr "5f2c")
                  eq_refl eq_refl) 500);
    [reflexivity|lia].
Defined.

(** X6.  Lines 123-161: while the task of a record is open, and the record
    has no date, the reconciliation leaves the record as it is. *)
Theorem still_open_unchanged env m c id date_completed :
  m !! "current" = Some (VDict c) → c !! "id" = Some id →
  todo_fetch env id = Fetched false date_completed →
  m !! "next" = Some VNone →
  reconcile env (VDict m) = (Ok tt, VDict m).
Proof.
  intros Hc Hid Hfetch Hn. unfold reconcile, close_instance, spawn_if_due.
  by run.
Qed.

Lemma still_open_unchanged_witness :
  reconcile env_still_open (VDict (live_map (interval 1 3))) =
  (Ok tt, VDict (live_map (interval 1 3))).
Proof.
  apply (still_open_unchanged env_still_open (live_map (interval 1 3))
           sample_instance (VStr "5f2c") VNone);
    vm_compute; reflexivity.
Defined.

(** X7.  Lines 123-161: a record without a task whose date is after the
    clock reading of line 149 is left as it is, and the service is not
    asked. *)
Theorem not_due_unchanged env m n :
  m !! "current" = Some VNone → m !! "next" = Some (VDatetime n) →
  datetime_ge (datetime_now (now_due env)) n = Ok false →
  reconcile env (VDict m) = (Ok tt, VDict m).
Proof.
  intros Hc Hn Hge. unfold reconcile, close_instance, spawn_if_due. by run.
Qed.

Lemma not_due_unchanged_witness :
  reconcile env_day_before (VDict dormant_map) = (Ok tt, VDict dormant_map).
Proof.
  apply (not_due_unchanged env_day_before dormant_map (utc_time 735610 0));
    vm_compute; reflexivity.
Defined.

(** X8.  Lines 148-161: a record without a task whose date is not after the
    clock reading of line 149 gets a new task, created with the title and
    the notes of the record, the recurring tag, and the items of its
    checklist, all unchecked (no checklist at all when the list is empty);
    [current] becomes the id and the creation time of that task, [next]
    becomes [None], and the rest of the record is kept. *)
Theorem dormant_due_spawns env m n recurring_tag items title notes task :
  m !! "current" = Some VNone → m !! "next" = Some (VDatetime n) →
  datetime_ge (datetime_now (now_due env)) n = Ok true →
  get_recurring_tag env = Ok recurring_tag →
  m !! "checklist" = Some (VList items) →
  m !! "title" = Some title → m !! "notes" = Some notes →
  todo_new env title notes recurring_tag
    (match items with
     | [] => None
     | _ => Some ((λ text, (text, false)) <$> items)
     end) = Ok task →
  reconcile env (VDict m) =
  (Ok tt,
   VDict (<["next" := VNone]>
         (<["current" := VDict (<["id" := task.1]> (<["created" := task.2]> ∅))]>
            m))).
Proof.
  intros Hc Hn Hge Htag Hitems Htitle Hnotes Hnew.
  unfold reconcile. apply bind_ok. exists tt, (VDict m). split.
  - unfold close_instance. by run.
  - eapply spawn_if_due_run; try done.
    unfold checklist_to_submit. run.
    destruct items; unfold truthy; case_bool_decide; try done; by run.
Qed.

Lemma dormant_due_spawns_witness :
  reconcile (env_completed_long_ago 0) (VDict dormant_map) =
  (Ok tt,
   VDict (<["next" := VNone]>
         (<["current" := VDict (<["id" := VStr "77d0"]>
                               (<["created" := VDatetime (utc_time 735620 5)]> ∅))]>
            dormant_map))).
Proof.
  apply (dormant_due_spawns (env_completed_long_ago 0) dormant_map
           (utc_time 735610 0) (mk_tag RECURRING_TAG_NAME "t-2")
           [VStr "kitchen"; VStr "balcony"] (VStr "Water the plants") VNone
           (VStr "77d0", VDatetime (utc_time 735620 5)));
    vm_compute; reflexivity.
Defined.

(** X9.  Lines 132-136 and 142-146: when [min] and [max] of the policy are
    the same number of days, the new date is the anchor moved by exactly
    that many days, whatever the random generator draws. *)
Theorem fixed_interval_is_exact slot a e m days td' :
  policy slot (VDict m) = Ok (VInt days, VInt days) →
  reschedule slot (VDatetime a) e (VDict m) = (Ok tt, td') →
  td' = VDict (<["next" :=
                   VDatetime {| wall := wall a + days * SECONDS_PER_DAY * MICROSECONDS;
                                tzinfo := tzinfo a |}]> m).
Proof.
  intros Hp (a' & s & [= <-] & Hs & _ & ->)%(reschedule_delay _ _ _ _ _ _ _ Hp).
  by replace s with (days * SECONDS_PER_DAY) by lia.
Qed.

Lemma fixed_interval_is_exact_witness :
  (reschedule "on deletion" (VDatetime (utc_time 735605 0)) 12345
     (VDict (live_map (interval 2 2)))).2
  = VDict (<["next" := VDatetime (utc_time 735607 0)]> (live_map (interval 2 2))).
Proof.
  rewrite (fixed_interval_is_exact "on deletion" (utc_time 735605 0) 12345
             (live_map (interval 2 2)) 2
             (reschedule "on deletion" (VDatetime (utc_time 735605 0)) 12345
                (VDict (live_map (interval 2 2)))).2);
    vm_compute; reflexivity.
Defined.

(** X10.  Lines 127-146: when the task of a record is completed, or gone,
    and the slot of the repeat policy for that case is [None], as it is for
    deleted tasks in every record that [create_recurring_task] or the
    migration of line 119 makes, the reconciliation raises [TypeError]. *)
Theorem missing_policy_raises env m c id slot anchor rp :
  m !! "current" = Some (VDict c) → c !! "id" = Some id →
  transition env id = Some (slot, anchor) →
  m !! "repeat" = Some (VDict rp) → rp !! slot = Some VNone →
  (reconcile env (VDict m)).1 = Raise TypeError.
Proof.
  intros Hc Hid Htr Hrp Hslot. unfold transition in Htr.
  unfold reconcile, close_instance, reschedule. run.
  destruct (todo_fetch env id) as [[] date_completed|status_code|]; try done.
  - injection Htr as <- <-. by run.
  - destruct (status_code =? 404); [|done]. injection Htr as <- <-. by run.
Qed.

Lemma missing_policy_raises_witness :
  (reconcile env_gone (VDict (live_map VNone))).1 = Raise TypeError.
Proof.
  apply (missing_policy_raises env_gone (live_map VNone) sample_instance
           (VStr "5f2c") "on deletion"
           (VDatetime (datetime_now (summer_noon 735605)))
           (<["on completion" := interval 1 3]> (<["on deletion" := VNone]> ∅)));
    vm_compute; reflexivity.
Defined.

(** X11.  Lines 123-161: a reconciliation that ends without an exception
    changes at most the entries [current], [next] and [previous] of the
    record: the title, the notes, the checklist, the repeat policy and every
    other entry are as before. *)
Theorem reconcile_keeps_template env m td' :
  reconcile env (VDict m) = (Ok tt, td') →
  ∃ m', td' = VDict m' ∧
        ∀ k, k ∉ ["current"; "next"; "previous"] → m' !! k = m !! k.
Proof.
  unfold reconcile. intros ([] & td1 & Hclose & Hspawn)%bind_ok.
  assert (∃ m1, td1 = VDict m1 ∧
            ∀ k, k ∉ ["current"; "next"; "previous"] → m1 !! k = m !! k)
    as (m1 & -> & Hm1).
  { apply close_instance_ok in Hclose
      as [[_ ->]|(c & id & _ & _ & [(? & _ & ->)|[(? & _ & Hres)|(_ & Hres)]])];
      eauto;
      apply reschedule_ok in Hres
        as (? & ? & ? & ? & ? & ? & ? & n & _ & _ & _ & _ & _ & _ & _ & _ & ->);
      (eexists; split; [done|]); intros k Hk; rewrite !not_elem_of_cons in Hk;
      destruct Hk as (? & ? & ? & _); unfold closed;
      by rewrite !lookup_insert_ne by congruence. }
  apply spawn_if_due_ok in Hspawn
    as [[_ ->]|(n & _ & [[_ ->]|(_ & ? & ? & ? & ? & task & _ & _ & _ & _ & _ & ->)])];
    eauto.
  eexists; split; [done|]. intros k Hk. rewrite <-(Hm1 k Hk).
  rewrite !not_elem_of_cons in Hk. destruct Hk as (? & ? & ? & _).
  unfold spawned. by rewrite !lookup_insert_ne by congruence.
Qed.

Lemma reconcile_keeps_template_witness :
  ∃ m', (reconcile (env_completed_long_ago 0) (VDict (live_map (interval 1 3)))).2
        = VDict m' ∧
        ∀ k, k ∉ ["current"; "next"; "previous"] →
             m' !! k = live_map (interval 1 3) !! k.
Proof.
  apply (reconcile_keeps_template (env_completed_long_ago 0)
           (live_map (interval 1 3))).
  vm_compute. reflexivity.
Defined.

(** ** The recurring tag *)

(** X12.  Lines 46-55: once the tags of the user are known (they were
    populated, or [user.fetch()] has returned), [get_recurring_tag] returns
    one of the user's tags named [recurring] when there is one, and only
    when there is none does it return what [Tag.new] gives for that name. *)
Theorem get_recurring_tag_finds_or_creates env :
  user_tags_populated env = true ∨ user_fetch env = Ok tt →
  (∃ t, get_recurring_tag env = Ok t ∧ t ∈ user_tags env ∧
        tag_name t = RECURRING_TAG_NAME) ∨
  ((∀ t, t ∈ user_tags env → tag_name t ≠ RECURRING_TAG_NAME) ∧
   get_recurring_tag env = tag_new env RECURRING_TAG_NAME).
Proof.
  intros Hready.
  assert (get_recurring_tag env =
          match List.find (λ t, bool_decide (tag_name t = RECURRING_TAG_NAME))
                          (user_tags env) with
          | Some recurring_tag => Ok recurring_tag
          | None => tag_new env RECURRING_TAG_NAME
          end) as ->.
  { unfold get_recurring_tag, mbind, result_bind.
    destruct Hready as [->| ->]; [done|]. by destruct (negb _). }
  destruct (List.find _ _) as [t|] eqn:Hfind.
  - left. exists t. apply List.find_some in Hfind as [Hin Hname].
    split; [done|]. split; [by apply list_elem_of_In|].
    by apply bool_decide_eq_true in Hname.
  - right. split; [|done]. intros t Hin%list_elem_of_In Hname.
    apply (List.find_none _ _ Hfind) in Hin.
    by rewrite bool_decide_eq_true_2 in Hin.
Qed.

Lemma get_recurring_tag_finds_or_creates_witness :
  ∃ t, get_recurring_tag env_gone = Ok t ∧ t ∈ user_tags env_gone ∧
       tag_name t = RECURRING_TAG_NAME.
Proof.
  destruct (get_recurring_tag_finds_or_creates env_gone)
    as [Hfound|[Hnone _]]; [by left|exact Hfound|].
  destruct (Hnone (mk_tag RECURRING_TAG_NAME "t-2")); [|reflexivity].
  right. left.
Defined.

(** ** Temporary names *)

(** X13.  Line 166: [mkstemp] takes the first of the names it tries whose
    path is free, and raises [FileExistsError] only when the path of every
    name exists already. *)
Theorem mkstemp_first_free (d : directory) names :
  match mkstemp d names with
  | Ok temp =>
      ∃ taken name rest,
        names = taken ++ name :: rest ∧ temp = temp_path name ∧
        d !! temp = None ∧
        Forall (λ name', is_Some (d !! temp_path name')) taken
  | Raise e =>
      e = FileExistsError ∧
      Forall (λ name, is_Some (d !! temp_path name)) names
  end.
Proof.
  induction names as [|name names IH]; cbn [mkstemp]; [done|].
  case_bool_decide as Hname.
  - destruct (mkstemp d names) as [temp|e].
    + destruct IH as (taken & name' & rest & -> & -> & Hfree & Htaken).
      exists (name :: taken), name', rest. repeat split; try done.
      by constructor.
    + destruct IH as [-> Hall]. split; [done|]. by constructor.
  - exists [], name, names. repeat split; try done.
    by apply eq_None_not_Some.
Qed.

(** ** The run over the directory *)

Section Run_properties.
Variable safe_load : string → result value.
Variable safe_dump : value → string.

(** What the cycle of a file does to the directory. *)
Lemma process_file_effect filename env d r d' :
  process_file safe_load safe_dump filename env d = (r, d') →
  d' = d ∨ ∃ old text, d !! filename = Some old ∧ d' = <[filename := text]> d.
Proof.
  destruct r as [[]|e]; [|by intros [-> _]%process_file_raise; left].
  unfold process_file.
  destruct (file_ops _ _ d filename env) as [ops|] eqn:Hops; [|done].
  destruct (file_ops_ok _ _ _ _ _ _ Hops)
    as (text & td & td' & temp & Hf & _ & _ & [Ht _]%mkstemp_ok & ->).
  destruct (persist_steps d temp filename (safe_dump td') text)
    as (_ & _ & ->); [done..|].
  intros [= <-]. right. eauto.
Qed.

(** X14.  Lines 62-170: when the cycle of a file raises, whether in the
    load, in the repairs, in the calls to the service or in [mkstemp], the
    directory is as it was: no record is written and no temporary file is
    left. *)
Theorem failed_cycle_writes_nothing filename env d e d' :
  process_file safe_load safe_dump filename env d = (Raise e, d') → d' = d.
Proof. by intros [-> _]%process_file_raise. Qed.

(** X15.  Lines 59-61: the names that begin with a dot are skipped: a run
    does what the run over the other names of the listing does. *)
Theorem run_skips_hidden listing envs d :
  run safe_load safe_dump listing envs d =
  run safe_load safe_dump
      (List.filter (λ filename, negb (startswith_dot filename)) listing) envs d.
Proof.
  revert d. induction listing as [|filename listing IH]; intros d; [done|].
  cbn [run List.filter].
  destruct (startswith_dot filename) eqn:Hname; cbn [negb run]; rewrite ?Hname.
  - apply IH.
  - unfold mbind, ST_bind.
    destruct (process_file _ _ filename (envs filename) d) as [[[]|e] d1];
      [apply IH|done].
Qed.

(** X16.  Lines 59-170: a run over the names of two listings, one after the
    other, is the run over the first followed, when it ends without an
    exception, by the run over the second. *)
Theorem run_app listing1 listing2 envs d :
  run safe_load safe_dump (listing1 ++ listing2) envs d =
  (run safe_load safe_dump listing1 envs;;
   run safe_load safe_dump listing2 envs) d.
Proof.
  revert d. induction listing1 as [|filename listing1 IH]; intros d; [done|].
  cbn [app run]. destruct (startswith_dot filename); [apply IH|].
  unfold mbind, ST_bind in *.
  destruct (process_file _ _ filename (envs filename) d) as [[[]|e] d1];
    [apply IH|done].
Qed.

(** X17.  Lines 59-170: a run, whether it ends or raises, neither adds nor
    removes a file name, and it leaves the text of every file that is not
    listed, or whose name begins with a dot, as it was. *)
Theorem run_leaves_other_files listing envs d r d' :
  run safe_load safe_dump listing envs d = (r, d') →
  dom d' = dom d ∧
  ∀ filename,
    filename ∉ listing ∨ startswith_dot filename = true →
    d' !! filename = d !! filename.
Proof.
  revert d. induction listing as [|name listing IH]; intros d.
  { by intros [= _ <-]. }
  cbn [run]. destruct (startswith_dot name) eqn:Hname.
  - intros [Hdom Hrest]%IH. split; [done|]. intros filename Hfile.
    apply Hrest. destruct Hfile as [Hfile|?]; [|by right].
    left. by apply not_elem_of_cons in Hfile as [_ ?].
  - unfold mbind, ST_bind.
    destruct (process_file _ _ name (envs name) d) as [r1 d1] eqn:Hcycle.
    assert (dom d1 = dom d ∧
            ∀ filename, filename ≠ name → d1 !! filename = d !! filename)
      as [Hdom1 Hrest1].
    { apply process_file_effect in Hcycle as [->|(old & text & Hold & ->)];
        [done|]. split; [|by intros ??; apply lookup_insert_ne].
      apply set_eq. intros filename. rewrite !elem_of_dom, lookup_insert.
      case_decide; [subst; by rewrite Hold|done]. }
    assert (∀ filename,
              filename ∉ name :: listing ∨ startswith_dot filename = true →
              filename ≠ name) as Hne.
    { intros filename [[? _]%not_elem_of_cons|?]; [done|]. congruence. }
    destruct r1 as [[]|e1].
    + intros [Hdom Hrest]%IH. split; [congruence|]. intros filename Hfile.
      rewrite <-(Hrest1 filename) by eauto. apply Hrest.
      destruct Hfile as [Hfile|?]; [|by right].
      left. by apply not_elem_of_cons in Hfile as [_ ?].
    + intros [= <- <-]. split; [done|]. intros filename Hfile. eauto.
Qed.
End Run_properties.

Lemma failed_cycle_writes_nothing_witness :
  (process_file table_load table_dump "a.yaml" (sample_envs "a.yaml")
     sample_directory).2 = sample_directory.
Proof.
  apply (failed_cycle_writes_nothing table_load table_dump "a.yaml"
           (sample_envs "a.yaml") sample_directory (HTTPError 500)).
  vm_compute. reflexivity.
Defined.

Lemma run_leaves_other_files_witness :
  let d' := (run table_load table_dump ["b.yaml"] sample_envs sample_directory).2 in
  dom d' = dom sample_directory ∧
  ∀ filename,
    filename ∉ ["b.yaml"] ∨ startswith_dot filename = true →
    d' !! filename = sample_directory !! filename.
Proof.
  apply (run_leaves_other_files table_load table_dump ["b.yaml"] sample_envs
           sample_directory (Ok tt)).
  vm_compute. reflexivity.
Defined.

(** ** The bootstrap of a record *)

(** The record of a new task, normalised: the creation time is tagged. *)
Lemma normalize_new_task_data id created title notes min max checklist :
  normalize (new_task_data (id, VDatetime created) title notes min max checklist) =
  (Ok tt,
   new_task_data (id, VDatetime (replace_utc created)) title notes min max
                 checklist).
Proof.
  unfold normalize, new_task_data, fix_current, fix_next, fix_previous,
    default_notes, rename_text, default_checklist, migrate_repeat.
  repeat (run; rewrite lookup_empty). run.
  unfold contains. rewrite bool_decide_eq_false_2.
  - run. map_eq_tac.
  - look. rewrite lookup_empty. by intros [??].
Qed.

(** X18.  Lines 20-44 with lines 75-161: the record that
    [create_recurring_task] writes for a new task goes through a cycle in
    which the task is still open without an exception and without a change,
    but for the UTC offset that the creation time is given. *)
Theorem new_record_stays_live env id created title notes min max checklist
    date_completed :
  todo_fetch env id = Fetched false date_completed →
  cycle env (new_task_data (id, VDatetime created) title notes min max checklist) =
  (Ok tt,
   new_task_data (id, VDatetime (replace_utc created)) title notes min max
                 checklist).
Proof.
  intros Hfetch. unfold cycle, mbind, ST_bind.
  rewrite normalize_new_task_data.
  unfold new_task_data, reconcile, close_instance, spawn_if_due. by run.
Qed.

Lemma new_record_stays_live_witness :
  cycle env_still_open
    (new_task_data (VStr "5f2c", VDatetime (utc_time 735600 0))
       (VStr "Water the plants") VNone (VInt 1) (VInt 3) VNone) =
  (Ok tt,
   new_task_data (VStr "5f2c", VDatetime (utc_time 735600 0))
     (VStr "Water the plants") VNone (VInt 1) (VInt 3) VNone).
Proof.
  apply (new_record_stays_live env_still_open (VStr "5f2c") (utc_time 735600 0)
           (VStr "Water the plants") VNone (VInt 1) (VInt 3) VNone VNone).
  reflexivity.
Defined.

(** X19.  Lines 20-44 with lines 75-136: the record that
    [create_recurring_task] writes has no policy for deleted tasks, so the
    cycle in which the service answers 404 for its task raises
    [TypeError]. *)
Theorem new_record_cannot_lose_its_task env id created title notes min max
    checklist :
  todo_fetch env id = FetchHTTPError 404 →
  (cycle env (new_task_data (id, VDatetime created) title notes min max
                            checklist)).1 = Raise TypeError.
Proof.
  intros Hfetch. unfold cycle, mbind, ST_bind.
  rewrite normalize_new_task_data.
  unfold new_task_data, reconcile, close_instance, reschedule. by run.
Qed.

Lemma new_record_cannot_lose_its_task_witness :
  (cycle env_gone
     (new_task_data (VStr "5f2c", VDatetime (utc_time 735600 0))
        (VStr "Water the plants") VNone (VInt 1) (VInt 3) VNone)).1
  = Raise TypeError.
Proof.
  apply (new_record_cannot_lose_its_task env_gone (VStr "5f2c")
           (utc_time 735600 0) (VStr "Water the plants") VNone (VInt 1) (VInt 3)
           VNone).
  reflexivity.
Defined.

Section Bootstrap_properties.
Variable safe_load : string → result value.
Variable safe_dump : value → string.

End Bootstrap_properties.

